(** * Scanner dashboard: connection manager, dispatcher, filter engine

    A shallow embedding of the client core of the Polymarket scanner:

    - [Js]         the JavaScript values that travel over the channel;
    - [Hook]       the [useWebSocket] hook (connection manager, message
                   dispatcher and subscriber registry), as a transition
                   system over the events the browser delivers to it;
    - [LegacyHook] the older copy of the same hook, which captures the
                   option bag in the [connect] closure;
    - [Dashboard]  the page component: update coordinator ([onSignalsUpdate],
                   [fetchSignals]), whale-trade buffer and [filteredSignals];
    - [Double]     the double-precision arithmetic [formatTimeAgo] uses;
    - [Formatting] [formatTimeAgo];
    - [MonteCarloPanel] the pull of the quant view's panel.

    Browser behaviour the hooks rely on (the WebSocket ready states, the timer
    table, React re-running an effect whose dependencies changed) is part of
    the model and is described where it is introduced.  Console output is not
    modelled. *)

From Stdlib Require Import QArith Qcanon Ascii.
From stdpp Require Import base strings list gmap numbers pretty.

Set Warnings "-register-all".

(* ===================================================================== *)
(** ** JavaScript values *)
(* ===================================================================== *)

Module Js.

(** The result of [JSON.parse], plus [undefined] for absent properties.
    Numbers are the finite values a JSON text denotes. *)
Inductive value :=
| Undefined
| Null
| Bool (b : bool)
| Num (q : Qc)
| Str (s : string)
| Arr (items : list value)
| Obj (fields : gmap string value).

(** ToBoolean. *)
Definition truthy (v : value) : bool :=
  match v with
  | Undefined | Null => false
  | Bool b => b
  | Num q => bool_decide (q ≠ 0%Qc)
  | Str s => negb (String.eqb s EmptyString)
  | Arr _ | Obj _ => true
  end.

(** [a || b]. *)
Definition or_else (a b : value) : value := if truthy a then a else b.

(** [v.k] for the keys the hook reads ([type], [data], [error], [signals],
    [cached], [cache_age]): an own property of an object, [undefined] on
    every other non-nullish value.  Reading a property of [null] or
    [undefined] throws; callers handle that case before calling [get]. *)
Definition get (v : value) (k : string) : value :=
  match v with
  | Obj fields => default Undefined (fields !! k)
  | _ => Undefined
  end.

Definition nullish (v : value) : bool :=
  match v with Undefined | Null => true | _ => false end.

(** [v === Str s], the comparison a [switch] makes against a string case. *)
Definition is_str (s : string) (v : value) : bool :=
  match v with Str s' => String.eqb s' s | _ => false end.

End Js.

(* ===================================================================== *)
(** ** Types shared by both copies of the hook *)
(* ===================================================================== *)

(** [WebSocket.readyState]. *)
Inductive ReadyState := CONNECTING | OPEN | CLOSING | CLOSED.

#[global] Instance ReadyState_eq_dec : EqDecision ReadyState.
Proof. solve_decision. Defined.

(** A channel is live while it is connecting or open. *)
Definition live (r : ReadyState) : bool :=
  match r with CONNECTING | OPEN => true | CLOSING | CLOSED => false end.

(** [UseWebSocketOptions]: each callback is optional; a registered callback
    is known by its identity. *)
Record Options := mkOptions {
  onSignalsUpdate : option nat;
  onWhaleTrade : option nat;
  onConnect : option nat;
  onDisconnect : option nat;
}.

Definition no_callbacks : Options := mkOptions None None None None.

(** What the hook does to the outside world: the callbacks it invokes, with
    their arguments, and the frames it sends. *)
Inductive Effect :=
| CallSignalsUpdate (cb : nat) (signals cached cacheAge error : Js.value)
| CallWhaleTrade (cb : nat) (trade : Js.value)
| CallConnect (cb : nat)
| CallDisconnect (cb : nat)
| Send (ws : nat) (frame : Js.value).

(** [cb?.(...)]: nothing happens when the callback is not registered. *)
Definition invoke (cb : option nat) (call : nat → Effect) : list Effect :=
  match cb with Some f => [call f] | None => [] end.

(** A frame sent on a socket, as opposed to a callback invoked. *)
Definition is_send (e : Effect) : Prop :=
  match e with Send _ _ => True | _ => False end.

(** A call of the on-signals or on-whale-trade callback of the bag [o]. *)
Definition registered (o : Options) (e : Effect) : Prop :=
  match e with
  | CallSignalsUpdate cb _ _ _ _ => onSignalsUpdate o = Some cb
  | CallWhaleTrade cb _ => onWhaleTrade o = Some cb
  | _ => False
  end.

(** The page the hook runs in. *)
Record Env := mkEnv {
  location_protocol : string;
  location_hostname : string;
  NEXT_PUBLIC_WS_HOST : option string;
  NEXT_PUBLIC_WS_PORT : option string;
  (** whether [new WebSocket] accepts the URL it is given (it throws on a
      malformed one) *)
  url_accepted : string → bool;
}.

(** [process.env.X || fallback] on strings. *)
Definition env_or (x : option string) (fallback : string) : string :=
  match x with
  | Some s => if String.eqb s EmptyString then fallback else s
  | None => fallback
  end.

Definition reconnect_delay : N := 5000.
Definition ping_period : N := 25000.
(** The object handed to [JSON.stringify] for the heartbeat. *)
Definition ping_frame : Js.value := Js.Obj {[ "type" := Js.Str "ping" ]}.

(** [WebSocket.close()]: a connecting or open socket starts closing; the
    browser reports the end of the closure later, by the close event. *)
Definition close_socket (r : ReadyState) : ReadyState :=
  match r with CONNECTING | OPEN => CLOSING | CLOSING => CLOSING | CLOSED => CLOSED end.

(* ===================================================================== *)
(** ** The hook with the callback registry ([callbacksRef]) *)
(* ===================================================================== *)

Module Hook.

(** The refs and React state of one mounted hook, together with the part of
    the browser it owns: the sockets it created (a socket is known by its
    position in [sockets]), the timer table, and the trace of its effects.
    Every pending timeout of this hook runs [connect]; every running
    interval pings the socket recorded with it. *)
Record State := mkState {
  sockets : list ReadyState;
  timeouts : gmap positive N;
  intervals : gmap positive (N * nat);
  nextTimer : positive;
  wsRef : option nat;
  reconnectTimeoutRef : option positive;
  pingIntervalRef : option positive;
  callbacksRef : Options;
  isConnected : bool;
  connectionError : option string;
  effects : list Effect;
}.

Definition set_sockets (v : list ReadyState) (s : State) : State :=
  mkState v (timeouts s) (intervals s) (nextTimer s) (wsRef s)
    (reconnectTimeoutRef s) (pingIntervalRef s) (callbacksRef s)
    (isConnected s) (connectionError s) (effects s).
Definition set_timeouts (v : gmap positive N) (s : State) : State :=
  mkState (sockets s) v (intervals s) (nextTimer s) (wsRef s)
    (reconnectTimeoutRef s) (pingIntervalRef s) (callbacksRef s)
    (isConnected s) (connectionError s) (effects s).
Definition set_intervals (v : gmap positive (N * nat)) (s : State) : State :=
  mkState (sockets s) (timeouts s) v (nextTimer s) (wsRef s)
    (reconnectTimeoutRef s) (pingIntervalRef s) (callbacksRef s)
    (isConnected s) (connectionError s) (effects s).
Definition set_nextTimer (v : positive) (s : State) : State :=
  mkState (sockets s) (timeouts s) (intervals s) v (wsRef s)
    (reconnectTimeoutRef s) (pingIntervalRef s) (callbacksRef s)
    (isConnected s) (connectionError s) (effects s).
Definition set_wsRef (v : option nat) (s : State) : State :=
  mkState (sockets s) (timeouts s) (intervals s) (nextTimer s) v
    (reconnectTimeoutRef s) (pingIntervalRef s) (callbacksRef s)
    (isConnected s) (connectionError s) (effects s).
Definition set_reconnectTimeoutRef (v : option positive) (s : State) : State :=
  mkState (sockets s) (timeouts s) (intervals s) (nextTimer s) (wsRef s)
    v (pingIntervalRef s) (callbacksRef s)
    (isConnected s) (connectionError s) (effects s).
Definition set_pingIntervalRef (v : option positive) (s : State) : State :=
  mkState (sockets s) (timeouts s) (intervals s) (nextTimer s) (wsRef s)
    (reconnectTimeoutRef s) v (callbacksRef s)
    (isConnected s) (connectionError s) (effects s).
Definition set_callbacksRef (v : Options) (s : State) : State :=
  mkState (sockets s) (timeouts s) (intervals s) (nextTimer s) (wsRef s)
    (reconnectTimeoutRef s) (pingIntervalRef s) v
    (isConnected s) (connectionError s) (effects s).
Definition setIsConnected (v : bool) (s : State) : State :=
  mkState (sockets s) (timeouts s) (intervals s) (nextTimer s) (wsRef s)
    (reconnectTimeoutRef s) (pingIntervalRef s) (callbacksRef s)
    v (connectionError s) (effects s).
Definition setConnectionError (v : option string) (s : State) : State :=
  mkState (sockets s) (timeouts s) (intervals s) (nextTimer s) (wsRef s)
    (reconnectTimeoutRef s) (pingIntervalRef s) (callbacksRef s)
    (isConnected s) v (effects s).
Definition emit (es : list Effect) (s : State) : State :=
  mkState (sockets s) (timeouts s) (intervals s) (nextTimer s) (wsRef s)
    (reconnectTimeoutRef s) (pingIntervalRef s) (callbacksRef s)
    (isConnected s) (connectionError s) (effects s ++ es).

(** The hook as first rendered with the option bag [o]. *)
Definition init (o : Options) : State :=
  mkState [] ∅ ∅ 1%positive None None None o false None [].

(** *** Timer table *)

Definition setTimeout (delay : N) (s : State) : positive * State :=
  let id := nextTimer s in
  (id, set_nextTimer (Pos.succ id) (set_timeouts (<[id := delay]> (timeouts s)) s)).

Definition clearTimeout (id : positive) (s : State) : State :=
  set_timeouts (delete id (timeouts s)) s.

Definition setInterval (period : N) (ws : nat) (s : State) : positive * State :=
  let id := nextTimer s in
  (id, set_nextTimer (Pos.succ id)
         (set_intervals (<[id := (period, ws)]> (intervals s)) s)).

Definition clearInterval (id : positive) (s : State) : State :=
  set_intervals (delete id (intervals s)) s.

(** [wsRef.current?.readyState === r] *)
Definition current_is (r : ReadyState) (s : State) : bool :=
  match wsRef s with
  | Some ws => bool_decide (sockets s !! ws = Some r)
  | None => false
  end.

Section WithEnv.
Variable env : Env.

Definition wsUrl : string :=
  let protocol :=
    if String.eqb (location_protocol env) "https:" then "wss:" else "ws:" in
  let host := env_or (NEXT_PUBLIC_WS_HOST env) (location_hostname env) in
  let port := env_or (NEXT_PUBLIC_WS_PORT env) "8000" in
  protocol +:+ "//" +:+ host +:+ ":" +:+ port +:+ "/ws".

(** [connect]: returns at once when the current socket is open;
    otherwise creates a socket, which starts out connecting, and stores
    it in [wsRef].  A throwing constructor is caught. *)
Definition connect (s : State) : State :=
  if current_is OPEN s then s
  else if url_accepted env wsUrl then
    set_wsRef (Some (length (sockets s)))
      (set_sockets (sockets s ++ [CONNECTING]) s)
  else setConnectionError (Some "Failed to connect to WebSocket") s.

(** [ws.onopen] *)
Definition onopen (ws : nat) (s : State) : State :=
  let s := setIsConnected true s in
  let s := setConnectionError None s in
  let s := emit (invoke (onConnect (callbacksRef s)) CallConnect) s in
  let '(id, s) := setInterval ping_period ws s in
  set_pingIntervalRef (Some id) s.

(** The interval callback installed by [ws.onopen]. *)
Definition ping (ws : nat) (s : State) : State :=
  if bool_decide (sockets s !! ws = Some OPEN)
  then emit [Send ws ping_frame] s else s.

(** [ws.onmessage], from the result of [JSON.parse(event.data)]
    ([None] when it throws).  Both a parse failure and the [TypeError]
    of reading [type] off [null] end in the [catch]. *)
Definition onmessage (parsed : option Js.value) (s : State) : State :=
  match parsed with
  | None => s
  | Some message =>
    if Js.nullish message then s else
    let type := Js.get message "type" in
    let data := Js.get message "data" in
    if Js.is_str "signals_update" type then
      if Js.truthy data then
        emit (invoke (onSignalsUpdate (callbacksRef s))
                (λ cb, CallSignalsUpdate cb
                   (Js.or_else (Js.get data "signals") (Js.Arr []))
                   (Js.or_else (Js.get data "cached") (Js.Bool false))
                   (Js.or_else (Js.get data "cache_age") Js.Null)
                   (Js.or_else (Js.get message "error") Js.Null))) s
      else s
    else if Js.is_str "whale_trade" type then
      if Js.truthy data then
        emit (invoke (onWhaleTrade (callbacksRef s))
                (λ cb, CallWhaleTrade cb data)) s
      else s
    else if Js.is_str "connection_ack" type then s
    else if Js.is_str "pong" type then s
    else s
  end.

(** [ws.onclose] *)
Definition onclose (s : State) : State :=
  let s := setIsConnected false s in
  let s := emit (invoke (onDisconnect (callbacksRef s)) CallDisconnect) s in
  let s := match pingIntervalRef s with
           | Some id => clearInterval id s
           | None => s
           end in
  let '(id, s) := setTimeout reconnect_delay s in
  set_reconnectTimeoutRef (Some id) s.

(** [ws.onerror] *)
Definition onerror (s : State) : State :=
  setConnectionError (Some "WebSocket connection error") s.

(** [disconnect] *)
Definition disconnect (s : State) : State :=
  let s := match reconnectTimeoutRef s with
           | Some id => clearTimeout id s
           | None => s
           end in
  let s := match pingIntervalRef s with
           | Some id => clearInterval id s
           | None => s
           end in
  match wsRef s with
  | Some ws => set_wsRef None (set_sockets (alter close_socket ws (sockets s)) s)
  | None => s
  end.

(** *** Events

    [Connect] and [Disconnect] are the calls the component makes (mount
    and the exported [reconnect]; unmount).  [OptionsChange] is a render
    with a new option bag: the effect on [options] stores it in
    [callbacksRef]; [connect] has no dependencies, so the mount effect
    does not run again.  The [Ws] events are the browser's: the handshake
    of a connecting socket succeeds, a message arrives on an open socket,
    an error is reported, a socket that is not yet closed becomes closed
    (whatever the cause: the peer, the network, or the end of a closure
    started by [close()]).  A pending timeout fires once and is gone; a
    running interval ticks. *)
Inductive Event :=
| Connect
| Disconnect
| OptionsChange (o : Options)
| WsOpen (ws : nat)
| WsMessage (ws : nat) (parsed : option Js.value)
| WsError (ws : nat)
| WsClose (ws : nat)
| TimeoutFire (id : positive)
| IntervalTick (id : positive).

Definition step (s : State) (e : Event) : State :=
  match e with
  | Connect => connect s
  | Disconnect => disconnect s
  | OptionsChange o => set_callbacksRef o s
  | WsOpen ws =>
    match sockets s !! ws with
    | Some CONNECTING => onopen ws (set_sockets (<[ws := OPEN]> (sockets s)) s)
    | _ => s
    end
  | WsMessage ws parsed =>
    match sockets s !! ws with
    | Some OPEN => onmessage parsed s
    | _ => s
    end
  | WsError ws =>
    match sockets s !! ws with
    | Some _ => onerror s
    | None => s
    end
  | WsClose ws =>
    match sockets s !! ws with
    | Some CLOSED | None => s
    | Some _ => onclose (set_sockets (<[ws := CLOSED]> (sockets s)) s)
    end
  | TimeoutFire id =>
    match timeouts s !! id with
    | Some _ => connect (clearTimeout id s)
    | None => s
    end
  | IntervalTick id =>
    match intervals s !! id with
    | Some (_, ws) => ping ws s
    | None => s
    end
  end.

Definition run (s : State) (evs : list Event) : State := foldl step s evs.

(** Whether the event runs [connect]. *)
Definition calls_connect (s : State) (e : Event) : bool :=
  match e with
  | Connect => true
  | TimeoutFire id => bool_decide (is_Some (timeouts s !! id))
  | _ => false
  end.

(** A run in which [connect] is never entered while the current socket is
    still connecting. *)
Fixpoint settled (s : State) (evs : list Event) : bool :=
  match evs with
  | [] => true
  | e :: evs =>
    negb (calls_connect s e && current_is CONNECTING s) && settled (step s e) evs
  end.

End WithEnv.

(** The number of sockets of the hook that are connecting or open. *)
Definition live_channels (s : State) : nat :=
  length (filter (λ r, live r = true) (sockets s)).

(** Every live socket is the one [wsRef] holds. *)
Definition current_only (s : State) : Prop :=
  ∀ ws r, sockets s !! ws = Some r → live r = true → wsRef s = Some ws.

(** Timer identifiers that are in use are below the next one handed out. *)
Definition timers_fresh (s : State) : Prop :=
  (∀ id delay, timeouts s !! id = Some delay → (id < nextTimer s)%positive)
  ∧ (∀ id x, intervals s !! id = Some x → (id < nextTimer s)%positive).

(** The socket [ws] completed its handshake in the run [evs] of the hook
    from [s]: its open event arrived while it was connecting. *)
Definition opened_in (env : Env) (s : State) (evs : list Event) (ws : nat) : Prop :=
  ∃ pre post, evs = pre ++ WsOpen ws :: post
              ∧ sockets (run env s pre) !! ws = Some CONNECTING.

(** The socket [ws] is open or closing: no close event has reported it
    closed.  A socket that [close()] met while it was still connecting is
    closing too, without ever having been open. *)
Definition unclosed (s : State) (ws : nat) : Prop :=
  sockets s !! ws = Some OPEN ∨ sockets s !! ws = Some CLOSING.

(** After the run [evs] from [s], some socket has completed its handshake
    and has not been reported closed. *)
Definition handshaken (env : Env) (s : State) (evs : list Event) : Prop :=
  ∃ ws, opened_in env s evs ws ∧ unclosed (run env s evs) ws.

(** A hook that has created no socket, holds no timer and has called
    nothing. *)
Definition inert (s : State) : Prop :=
  sockets s = [] ∧ timeouts s = ∅ ∧ intervals s = ∅ ∧ wsRef s = None
  ∧ isConnected s = false ∧ effects s = [].

(** The callbacks a message reaches when the bag [o] is registered. *)
Definition dispatch (o : Options) (parsed : option Js.value) : list Effect :=
  effects (onmessage parsed (init o)).

End Hook.

(* ===================================================================== *)
(** ** The older copy of the hook: callbacks captured by [connect] *)
(* ===================================================================== *)

Module LegacyHook.

(** As [Hook.State], without [callbacksRef].  [connect] is re-created for
    every new option bag and its handlers read that bag, so each socket and
    each pending timeout carries the bag of the [connect] that made it;
    [options] is the bag of the latest render. *)
Record State := mkState {
  sockets : list (ReadyState * Options);
  timeouts : gmap positive (N * Options);
  intervals : gmap positive (N * nat);
  nextTimer : positive;
  wsRef : option nat;
  reconnectTimeoutRef : option positive;
  pingIntervalRef : option positive;
  options : Options;
  isConnected : bool;
  connectionError : option string;
  effects : list Effect;
}.

Definition set_sockets (v : list (ReadyState * Options)) (s : State) : State :=
  mkState v (timeouts s) (intervals s) (nextTimer s) (wsRef s)
    (reconnectTimeoutRef s) (pingIntervalRef s) (options s)
    (isConnected s) (connectionError s) (effects s).
Definition set_timers (t : gmap positive (N * Options))
    (i : gmap positive (N * nat)) (next : positive) (s : State) : State :=
  mkState (sockets s) t i next (wsRef s)
    (reconnectTimeoutRef s) (pingIntervalRef s) (options s)
    (isConnected s) (connectionError s) (effects s).
Definition set_refs (ws : option nat) (r p : option positive) (s : State) : State :=
  mkState (sockets s) (timeouts s) (intervals s) (nextTimer s) ws r p (options s)
    (isConnected s) (connectionError s) (effects s).
Definition set_options (o : Options) (s : State) : State :=
  mkState (sockets s) (timeouts s) (intervals s) (nextTimer s) (wsRef s)
    (reconnectTimeoutRef s) (pingIntervalRef s) o
    (isConnected s) (connectionError s) (effects s).
Definition set_status (c : bool) (e : option string) (s : State) : State :=
  mkState (sockets s) (timeouts s) (intervals s) (nextTimer s) (wsRef s)
    (reconnectTimeoutRef s) (pingIntervalRef s) (options s) c e (effects s).
Definition emit (es : list Effect) (s : State) : State :=
  mkState (sockets s) (timeouts s) (intervals s) (nextTimer s) (wsRef s)
    (reconnectTimeoutRef s) (pingIntervalRef s) (options s)
    (isConnected s) (connectionError s) (effects s ++ es).

Definition init (o : Options) : State :=
  mkState [] ∅ ∅ 1%positive None None None o false None [].

Definition readyState (s : State) (ws : nat) : option ReadyState :=
  fst <$> sockets s !! ws.

Definition current_is (r : ReadyState) (s : State) : bool :=
  match wsRef s with
  | Some ws => bool_decide (readyState s ws = Some r)
  | None => false
  end.

Section WithEnv.
Variable env : Env.

Definition wsUrl : string :=
  let protocol :=
    if String.eqb (location_protocol env) "https:" then "wss:" else "ws:" in
  protocol +:+ "//localhost:8000/ws".

(** The [connect] built for the option bag [o]. *)
Definition connect (o : Options) (s : State) : State :=
  if current_is OPEN s then s
  else if url_accepted env wsUrl then
    set_refs (Some (length (sockets s))) (reconnectTimeoutRef s) (pingIntervalRef s)
      (set_sockets (sockets s ++ [(CONNECTING, o)]) s)
  else set_status (isConnected s) (Some "Failed to connect to WebSocket") s.

Definition onopen (o : Options) (ws : nat) (s : State) : State :=
  let s := set_status true None s in
  let s := emit (invoke (onConnect o) CallConnect) s in
  let id := nextTimer s in
  let s := set_timers (timeouts s) (<[id := (ping_period, ws)]> (intervals s))
             (Pos.succ id) s in
  set_refs (wsRef s) (reconnectTimeoutRef s) (Some id) s.

Definition ping (ws : nat) (s : State) : State :=
  if bool_decide (readyState s ws = Some OPEN)
  then emit [Send ws ping_frame] s else s.

Definition onmessage (o : Options) (parsed : option Js.value) (s : State) : State :=
  match parsed with
  | None => s
  | Some message =>
    if Js.nullish message then s else
    let type := Js.get message "type" in
    let data := Js.get message "data" in
    if Js.is_str "signals_update" type then
      if Js.truthy data then
        emit (invoke (onSignalsUpdate o)
                (λ cb, CallSignalsUpdate cb
                   (Js.or_else (Js.get data "signals") (Js.Arr []))
                   (Js.or_else (Js.get data "cached") (Js.Bool false))
                   (Js.or_else (Js.get data "cache_age") Js.Null)
                   (Js.or_else (Js.get message "error") Js.Null))) s
      else s
    else if Js.is_str "whale_trade" type then
      if Js.truthy data then
        emit (invoke (onWhaleTrade o) (λ cb, CallWhaleTrade cb data)) s
      else s
    else if Js.is_str "connection_ack" type then s
    else if Js.is_str "pong" type then s
    else s
  end.

Definition onclose (o : Options) (s : State) : State :=
  let s := set_status false (connectionError s) s in
  let s := emit (invoke (onDisconnect o) CallDisconnect) s in
  let s := match pingIntervalRef s with
           | Some id => set_timers (timeouts s) (delete id (intervals s)) (nextTimer s) s
           | None => s
           end in
  let id := nextTimer s in
  let s := set_timers (<[id := (reconnect_delay, o)]> (timeouts s)) (intervals s)
             (Pos.succ id) s in
  set_refs (wsRef s) (Some id) (pingIntervalRef s) s.

Definition onerror (s : State) : State :=
  set_status (isConnected s) (Some "WebSocket connection error") s.

Definition disconnect (s : State) : State :=
  let s := match reconnectTimeoutRef s with
           | Some id => set_timers (delete id (timeouts s)) (intervals s) (nextTimer s) s
           | None => s
           end in
  let s := match pingIntervalRef s with
           | Some id => set_timers (timeouts s) (delete id (intervals s)) (nextTimer s) s
           | None => s
           end in
  match wsRef s with
  | Some ws =>
    set_refs None (reconnectTimeoutRef s) (pingIntervalRef s)
      (set_sockets (alter (prod_map close_socket id) ws (sockets s)) s)
  | None => s
  end.

(** Events as for [Hook], except for a render with a new option bag:
    [connect] depends on [options], so it is a new function; the mount
    effect depends on [connect], so React runs its cleanup
    ([disconnect]) and then the effect again (the new [connect]). *)
Inductive Event :=
| Connect
| Disconnect
| OptionsChange (o : Options)
| WsOpen (ws : nat)
| WsMessage (ws : nat) (parsed : option Js.value)
| WsError (ws : nat)
| WsClose (ws : nat)
| TimeoutFire (id : positive)
| IntervalTick (id : positive).

Definition step (s : State) (e : Event) : State :=
  match e with
  | Connect => connect (options s) s
  | Disconnect => disconnect s
  | OptionsChange o => connect o (disconnect (set_options o s))
  | WsOpen ws =>
    match sockets s !! ws with
    | Some (CONNECTING, o) =>
      onopen o ws (set_sockets (<[ws := (OPEN, o)]> (sockets s)) s)
    | _ => s
    end
  | WsMessage ws parsed =>
    match sockets s !! ws with
    | Some (OPEN, o) => onmessage o parsed s
    | _ => s
    end
  | WsError ws =>
    match sockets s !! ws with
    | Some _ => onerror s
    | None => s
    end
  | WsClose ws =>
    match sockets s !! ws with
    | Some (CLOSED, _) | None => s
    | Some (_, o) => onclose o (set_sockets (<[ws := (CLOSED, o)]> (sockets s)) s)
    end
  | TimeoutFire id =>
    match timeouts s !! id with
    | Some (_, o) =>
      connect o (set_timers (delete id (timeouts s)) (intervals s) (nextTimer s) s)
    | None => s
    end
  | IntervalTick id =>
    match intervals s !! id with
    | Some (_, ws) => ping ws s
    | None => s
    end
  end.

Definition run (s : State) (evs : list Event) : State := foldl step s evs.

End WithEnv.

Definition live_channels (s : State) : nat :=
  length (filter (λ so, live so.1 = true) (sockets s)).

End LegacyHook.

(* ===================================================================== *)
(** ** The dashboard page *)
(* ===================================================================== *)

Module Dashboard.

(** A JavaScript number as the comparisons of the page see it: [None]
    stands for a value that compares false with everything, that is an
    absent property ([undefined]) or [NaN]. *)
Definition num := option Qc.

(** [a < b] and [a > b] *)
Definition lt (a b : num) : bool :=
  match a, b with
  | Some x, Some y => bool_decide (x < y)%Qc
  | _, _ => false
  end.
Definition gt (a b : num) : bool := lt b a.

(** [a || d] on numbers: zero and [NaN] are falsy. *)
Definition num_or (a : num) (d : Qc) : num :=
  match a with
  | Some x => if bool_decide (x = 0%Qc) then Some d else Some x
  | None => Some d
  end.

(** [s] as a condition, for a [string | null]. *)
Definition nonempty (s : option string) : bool :=
  match s with
  | Some x => negb (String.eqb x EmptyString)
  | None => false
  end.

(** [hay.includes(needle)] *)
Fixpoint includes (needle hay : string) : bool :=
  String.prefix needle hay ||
  match hay with
  | EmptyString => false
  | String _ rest => includes needle rest
  end.

(** The fields of a [Signal] that the page logic reads (the others are
    only rendered). *)
Record Signal := mkSignal {
  id : option string;
  score : num;
  level : option string;
  whale_count : num;
  unique_whale_count : num;
  volume_24h : num;
  liquidity : num;
  spread : num;
  hours_remaining : num;
}.

Record ScannerSettings := mkSettings {
  minWhaleCount : num;
  minUniqueWhales : num;
  minVolumeUsd : num;
  minLiquidity : num;
  maxSpread : num;
  maxTimeHours : num;
  minNewsCount : num;
  minScore : num;
  showWatchLevel : bool;
}.

Record WhaleTrade := mkWhaleTrade {
  trade_id : string;
  trader : string;
  side : string;
  size_usd : num;
  price : num;
}.

Inductive Tab := scanner | equilibrage | hot | quant | contrarian.

#[global] Instance Tab_eq_dec : EqDecision Tab.
Proof. solve_decision. Defined.

Definition tab_key (t : Tab) : string :=
  match t with
  | scanner => "scanner"
  | equilibrage => "equilibrage"
  | hot => "hot"
  | quant => "quant"
  | contrarian => "contrarian"
  end.

Record HotSettings := mkHot { amount : string; profit : string; strategy : string }.

Definition zero : num := Some 0%Qc.

Definition defaultSettings : ScannerSettings :=
  mkSettings zero zero zero zero (Some (Q2Qc (1 # 10))) zero zero zero true.

(** The React state of the page ([showSettings], which only opens the
    settings panel, is left out). *)
Record State := mkState {
  signals : list Signal;
  arbitrageOpps : list Js.value;
  isLive : bool;
  isLoading : bool;
  error : option string;
  lastUpdate : option N;
  whaleTrades : list WhaleTrade;
  tabSettings : gmap string ScannerSettings;
  activeTab : Tab;
  hotSettings : HotSettings;
}.

Definition setSignals (v : list Signal) (d : State) : State :=
  mkState v (arbitrageOpps d) (isLive d) (isLoading d) (error d) (lastUpdate d)
    (whaleTrades d) (tabSettings d) (activeTab d) (hotSettings d).
Definition setArbitrageOpps (v : list Js.value) (d : State) : State :=
  mkState (signals d) v (isLive d) (isLoading d) (error d) (lastUpdate d)
    (whaleTrades d) (tabSettings d) (activeTab d) (hotSettings d).
Definition setIsLive (v : bool) (d : State) : State :=
  mkState (signals d) (arbitrageOpps d) v (isLoading d) (error d) (lastUpdate d)
    (whaleTrades d) (tabSettings d) (activeTab d) (hotSettings d).
Definition setIsLoading (v : bool) (d : State) : State :=
  mkState (signals d) (arbitrageOpps d) (isLive d) v (error d) (lastUpdate d)
    (whaleTrades d) (tabSettings d) (activeTab d) (hotSettings d).
Definition setError (v : option string) (d : State) : State :=
  mkState (signals d) (arbitrageOpps d) (isLive d) (isLoading d) v (lastUpdate d)
    (whaleTrades d) (tabSettings d) (activeTab d) (hotSettings d).
Definition setLastUpdate (v : option N) (d : State) : State :=
  mkState (signals d) (arbitrageOpps d) (isLive d) (isLoading d) (error d) v
    (whaleTrades d) (tabSettings d) (activeTab d) (hotSettings d).
Definition setWhaleTrades (v : list WhaleTrade) (d : State) : State :=
  mkState (signals d) (arbitrageOpps d) (isLive d) (isLoading d) (error d)
    (lastUpdate d) v (tabSettings d) (activeTab d) (hotSettings d).
Definition setTabSettings (v : gmap string ScannerSettings) (d : State) : State :=
  mkState (signals d) (arbitrageOpps d) (isLive d) (isLoading d) (error d)
    (lastUpdate d) (whaleTrades d) v (activeTab d) (hotSettings d).
Definition setActiveTab (v : Tab) (d : State) : State :=
  mkState (signals d) (arbitrageOpps d) (isLive d) (isLoading d) (error d)
    (lastUpdate d) (whaleTrades d) (tabSettings d) v (hotSettings d).
Definition setHotSettings (v : HotSettings) (d : State) : State :=
  mkState (signals d) (arbitrageOpps d) (isLive d) (isLoading d) (error d)
    (lastUpdate d) (whaleTrades d) (tabSettings d) (activeTab d) v.

Definition initial : State :=
  mkState [] [] true true None None []
    (list_to_map ((λ t, (tab_key t, defaultSettings))
                    <$> [scanner; equilibrage; hot; contrarian; quant]))
    scanner (mkHot EmptyString EmptyString "whale").

(** [tabSettings[activeTab] || defaultSettings] *)
Definition activeSettings (d : State) : ScannerSettings :=
  default defaultSettings (tabSettings d !! tab_key (activeTab d)).

Definition handleSettingsUpdate (newSettings : ScannerSettings) (d : State) : State :=
  setTabSettings (<[tab_key (activeTab d) := newSettings]> (tabSettings d)) d.

(** *** Update coordinator: the push side *)

(** [onSignalsUpdate], called at time [now]. *)
Definition onSignalsUpdate (now : N) (newSignals : list Signal)
    (_cached : bool) (_cacheAge : num) (wsError : option string)
    (d : State) : State :=
  if negb (bool_decide (activeTab d = scanner)) then d
  else if isLive d && bool_decide (0 < length newSignals) then
    let d := setSignals newSignals d in
    let d := setLastUpdate (Some now) d in
    if nonempty wsError then setError wsError d else d
  else d.

(** [onWhaleTrade]: [[trade, ...prev].slice(0, 20)] *)
Definition whale_capacity : nat := 20.

Definition onWhaleTrade (trade : WhaleTrade) (d : State) : State :=
  setWhaleTrades (take whale_capacity (trade :: whaleTrades d)) d.

(** *** Update coordinator: the pull side *)

(** What a [catch] receives: an [Error] with its message, or another
    value. *)
Inductive Thrown := ThrownError (message : string) | ThrownOther.

(** The JSON body of a reply, as far as the page reads it: [error],
    [signals] when it is an array, [opportunities] when it is an array,
    [trades]. *)
Record Body := mkBody {
  body_error : option string;
  body_signals : option (list Signal);
  body_opportunities : option (list Js.value);
  body_trades : option (list WhaleTrade);
}.

(** How [await fetch(...)] followed by [await response.json()] ends: the
    request is rejected (network failure), or a reply arrives with a
    status and a body that parses or throws. *)
Inductive Reply :=
| Rejected (e : Thrown)
| Replied (status : N) (body : Thrown + Body).

(** [response.ok] *)
Definition ok (status : N) : bool := (200 <=? status)%N && (status <=? 299)%N.

Definition failed (r : Reply) : bool :=
  match r with
  | Rejected _ => true
  | Replied status _ => negb (ok status)
  end.

Definition is_arbitrage (tab : Tab) (hs : HotSettings) : bool :=
  bool_decide (tab = hot) && String.eqb (strategy hs) "arbitrage".

Definition endpoint (tab : Tab) (hs : HotSettings) : string :=
  if is_arbitrage tab hs then "/api/signals/arbitrage"
  else match tab with
       | equilibrage => "/api/signals/equilibrage?limit=1000"
       | hot => "/api/signals/hot?strategy=" +:+ strategy hs +:+ "&limit=1000"
       | contrarian => "/api/signals/hot?strategy=fade&limit=1000"
       | _ => "/api/signals?limit=1000"
       end.

Definition backend_down : string :=
  "Backend non connecté ou obsolète. Lancez/Redémarrez avec LANCER.command".
Definition endpoint_missing : string :=
  "Endpoint introuvable. Redémarrez le backend (LANCER.command).".

(** The [catch] block of [fetchSignals]. *)
Definition fetchSignals_catch (err : Thrown) (d : State) : State :=
  let msg := match err with
             | ThrownError m => m
             | ThrownOther => "Erreur inconnue"
             end in
  let d := if includes "Redémarrez" msg || includes "Failed to fetch" msg
           then setError (Some backend_down) d
           else setError (Some msg) d in
  setIsLoading false d.

(** [fetchSignals] up to its first [await]. *)
Definition fetchSignals_begin (d : State) : State := setError None d.

(** [fetchSignals] from the moment the reply [r] is in, at time [now].
    [tab] and [hs] are the values the callback closed over; [d] is the
    state the setters then act on. *)
Definition fetchSignals_settle (tab : Tab) (hs : HotSettings) (now : N)
    (r : Reply) (d : State) : State :=
  if is_arbitrage tab hs then
    match r with
    | Rejected e => fetchSignals_catch e d
    | Replied status body =>
      if ok status then
        match body with
        | inl e => fetchSignals_catch e d
        | inr arbData =>
          let d := match body_opportunities arbData with
                   | Some opps => setArbitrageOpps opps d
                   | None => d
                   end in
          setIsLoading false d
        end
      else setIsLoading false d
    end
  else
    match r with
    | Rejected e => fetchSignals_catch e d
    | Replied status body =>
      if negb (ok status) then
        if (status =? 404)%N
        then fetchSignals_catch (ThrownError endpoint_missing) d
        else fetchSignals_catch (ThrownError ("HTTP " +:+ pretty status)) d
      else
        match body with
        | inl e => fetchSignals_catch e d
        | inr data =>
          let d :=
            if nonempty (body_error data) then
              setSignals [] (setError (body_error data) d)
            else match body_signals data with
                 | Some l => setLastUpdate (Some now) (setSignals l d)
                 | None => d
                 end in
          setIsLoading false d
        end
    end.

(** A pull whose reply arrives before anything else happens. *)
Definition fetchSignals (now : N) (r : Reply) (d : State) : State :=
  fetchSignals_settle (activeTab d) (hotSettings d) now r (fetchSignals_begin d).

(** [fetchWhaleTrades] *)
Definition fetchWhaleTrades (r : Reply) (d : State) : State :=
  match r with
  | Replied status (inr data) =>
    if ok status then
      match body_trades data with
      | Some trades => setWhaleTrades trades d
      | None => d
      end
    else d
  | _ => d
  end.

(** *** Filter engine *)

(** The predicate of [signals.filter(...)]. *)
Definition visible (tab : Tab) (hs : HotSettings) (st : ScannerSettings)
    (signal : Signal) : bool :=
  if lt (score signal) (minScore st) then false else
  if lt (volume_24h signal) (minVolumeUsd st) then false else
  if lt (liquidity signal) (minLiquidity st) then false else
  let isProInsights := bool_decide (tab = hot) in
  let isWhaleStrategy := isProInsights && String.eqb (strategy hs) "whale" in
  let isScalpStrategy := isProInsights && String.eqb (strategy hs) "scalp" in
  if (negb isProInsights || isWhaleStrategy)
     && (lt (whale_count signal) (minWhaleCount st)
         || lt (unique_whale_count signal) (num_or (minUniqueWhales st) 0%Qc))
  then false else
  if negb isScalpStrategy
     && (gt (maxSpread st) zero && gt (spread signal) (maxSpread st))
  then false else
  if gt (maxTimeHours st) zero && gt (hours_remaining signal) (maxTimeHours st)
  then false else
  if negb (showWatchLevel st) && bool_decide (level signal = Some "watch")
  then false else
  true.

Definition filteredSignals (d : State) : list Signal :=
  filter (λ signal, visible (activeTab d) (hotSettings d) (activeSettings d) signal = true)
    (signals d).

(** *** Polling

    The polling effect: whether the 30 s interval that calls [fetchSignals]
    and [fetchWhaleTrades] is running, given the [isConnected] of the
    hook. *)
Definition polling (isConnected : bool) (d : State) : bool :=
  if bool_decide (activeTab d = scanner) && isConnected && isLive d then false
  else if negb (isLive d) then false
  else true.


(** *** Comparing profiles *)

(** A threshold that was raised, or left as it was. *)
Definition raised (a b : num) : Prop :=
  a = b ∨ ∃ x y, a = Some x ∧ b = Some y ∧ (x ≤ y)%Qc.

(** [strict] asks at least as much as [loose] in every minimum and agrees
    with it everywhere else. *)
Definition tightens (loose strict : ScannerSettings) : Prop :=
  raised (minScore loose) (minScore strict)
  ∧ raised (minVolumeUsd loose) (minVolumeUsd strict)
  ∧ raised (minLiquidity loose) (minLiquidity strict)
  ∧ raised (minWhaleCount loose) (minWhaleCount strict)
  ∧ raised (minUniqueWhales loose) (minUniqueWhales strict)
  ∧ maxSpread loose = maxSpread strict
  ∧ maxTimeHours loose = maxTimeHours strict
  ∧ showWatchLevel loose = showWatchLevel strict.

End Dashboard.

(* ===================================================================== *)
(** ** Formatting utilities *)
(* ===================================================================== *)

(** JavaScript numbers are IEEE 754 binary64: every arithmetic operation
    returns the representable number nearest to the exact result, a tie
    going to the one whose significand is even.  The operands met here are
    integers that are themselves representable, so an exact result is a
    rational [n / d]. *)
Module Double.

(** The integer nearest to [n / d] (for [0 < d]), a tie going to the even
    one. *)
Definition round_half_even (n d : Z) : Z :=
  let q := (n `div` d)%Z in
  let r := (n `mod` d)%Z in
  if (2 * r <? d)%Z then q
  else if (d <? 2 * r)%Z then (q + 1)%Z
  else if Z.even q then q else (q + 1)%Z.

(** The binary exponent of [n / d] (for [0 < n] and [0 < d]): the [k] with
    [2^k ≤ n / d < 2^(k+1)]. *)
Definition ilog2 (n d : Z) : Z :=
  if (d <=? n)%Z then Z.log2 (n `div` d)
  else (- Z.log2_up ((d + n - 1) `div` n))%Z.

(** The double nearest to [n / d] (for [0 < d]), as a pair [(m, e)] that
    stands for [m * 2^e]: the significand [m] keeps 53 bits.  The exponent
    range of the format is left out: what [formatTimeAgo] computes from time
    values is zero or lies between [1 / 60000] and [2^54] in magnitude, far
    from overflow and from the subnormal numbers. *)
Definition nearest (n d : Z) : Z * Z :=
  if (n =? 0)%Z then (0%Z, 0%Z) else
  let e := (ilog2 (Z.abs n) d - 52)%Z in
  (round_half_even (n * 2 ^ Z.max 0 (- e)) (d * 2 ^ Z.max 0 e), e).

(** [Math.floor] *)
Definition floor (x : Z * Z) : Z := Z.shiftl x.1 x.2.

(** [a - b] on integers: the double nearest to the difference, which is an
    integer again. *)
Definition sub (a b : Z) : Z := floor (nearest (a - b) 1).

(** [Math.floor(a / b)] on integers, [0 < b]. *)
Definition floor_div (a b : Z) : Z := floor (nearest a b).

End Double.

Module Formatting.

(** The range of the time values of a [Date], in milliseconds: [Date.now()]
    and the [getTime()] of a valid date are integers in this range, all of
    them representable. *)
Definition time_value (t : Z) : Prop := (Z.abs t ≤ 8640000000000000)%Z.

(** [formatTimeAgo], from [Date.now()] and from what [getTime()] gives for
    the timestamp: a time value, or [None] for the [NaN] of a timestamp that
    does not parse. *)
Definition formatTimeAgo (now : Z) (timestamp : option Z) : string :=
  match timestamp with
  | None => "NaNd ago"
  | Some t =>
    let diff := Double.sub now t in
    let minutes := Double.floor_div diff 60000 in
    if (minutes <? 1)%Z then "Just now"
    else if (minutes <? 60)%Z then pretty minutes +:+ "m ago"
    else
      let hours := Double.floor_div minutes 60 in
      if (hours <? 24)%Z then pretty hours +:+ "h ago"
      else pretty (Double.floor_div hours 24) +:+ "d ago"
  end.

End Formatting.

(* ===================================================================== *)
(** ** The Monte Carlo panel of the quant view *)
(* ===================================================================== *)

Module MonteCarloPanel.

(** The React state of the panel.  [opportunities] and the two [stats]
    are whatever the reply held under those names. *)
Record State := mkState {
  opportunities : Js.value;
  loading : bool;
  error : option string;
  stats_total : Js.value;
  stats_analyzed : Js.value;
  minEdge : Dashboard.num;
}.

Definition initial : State :=
  mkState (Js.Arr []) true None (Js.Num 0%Qc) (Js.Num 0%Qc) (Some (Q2Qc (1 # 100))).

(** How the request ends: rejected, or answered with a status and a body
    that parses ([Some]) or does not. *)
Inductive Reply :=
| Rejected
| Replied (status : N) (body : option Js.value).

Definition load_failed : string :=
  "Erreur lors du chargement des opportunités Monte Carlo".

(** [fetchEdgeOpportunities] up to its [await]. *)
Definition fetchEdgeOpportunities_begin (s : State) : State :=
  mkState (opportunities s) true None (stats_total s) (stats_analyzed s) (minEdge s).

(** The [try] block after the reply: [Some] the state it leaves, [None]
    when it throws (request rejected, status not ok, body not parsed, or a
    [null] body whose property cannot be read). *)
Definition fetchEdgeOpportunities_try (r : Reply) (s : State) : option State :=
  match r with
  | Rejected => None
  | Replied status body =>
    if negb (Dashboard.ok status) then None
    else match body with
         | None => None
         | Some data =>
           if Js.nullish data then None
           else Some (mkState (Js.get data "opportunities") (loading s) (error s)
                        (Js.get data "total") (Js.get data "crypto_markets_analyzed")
                        (minEdge s))
         end
  end.

(** [fetchEdgeOpportunities] from the reply on: [try], [catch], [finally]. *)
Definition fetchEdgeOpportunities_settle (r : Reply) (s : State) : State :=
  let s := match fetchEdgeOpportunities_try r s with
           | Some s' => s'
           | None =>
             mkState (opportunities s) (loading s) (Some load_failed)
               (stats_total s) (stats_analyzed s) (minEdge s)
           end in
  mkState (opportunities s) false (error s) (stats_total s) (stats_analyzed s) (minEdge s).

Definition fetchEdgeOpportunities (r : Reply) (s : State) : State :=
  fetchEdgeOpportunities_settle r (fetchEdgeOpportunities_begin s).

End MonteCarloPanel.

(* ===================================================================== *)
(** ** Concrete inputs used by the examples *)
(* ===================================================================== *)

Module Scenario.

(** A page served over plain http from localhost, with no override in the
    environment and a well-formed socket URL. *)
Definition page : Env := mkEnv "http:" "localhost" None None (λ _, true).

(** A page whose socket URL the constructor refuses. *)
Definition broken_page : Env := mkEnv "http:" "bad host" None None (λ _, false).

Definition subscriber : Options := mkOptions (Some 1) (Some 2) (Some 3) (Some 4).
Definition next_subscriber : Options := mkOptions (Some 5) (Some 6) (Some 7) (Some 8).

Import Dashboard.

Definition q (z : Z) : num := Some (Qc_of_Z z).

(** The profile and the three records of the filter scenario; everything
    the scenario leaves out is absent from the record, or zero in the
    profile. *)
Definition profile : ScannerSettings :=
  mkSettings zero zero (q 1000) zero zero zero zero (q 5) false.

Definition record (sc vol : Z) (lvl : string) : Signal :=
  mkSignal None (q sc) (Some lvl) None None (q vol) None None None.

Definition first : Signal := record 6 2000 "opportunity".
Definition second : Signal := record 3 5000 "opportunity".
Definition third : Signal := record 8 500 "watch".

Definition stale : Signal :=
  mkSignal (Some "m1") (q 7) (Some "strong") (q 2) (q 1) (q 900) (q 50) None (q 12).
Definition fresh : Signal :=
  mkSignal (Some "m2") (q 9) (Some "opportunity") (q 4) (q 3) (q 4000) (q 80) None (q 3).

Definition trade (n : string) : WhaleTrade := mkWhaleTrade n "0xabc" "YES" (q 25000) None.


End Scenario.

(* ===================================================================== *)
(** ** Facts about lists *)
(* ===================================================================== *)

(** Case analysis on every condition of the goal. *)
Ltac case_ifs :=
  repeat match goal with |- context [if ?b then _ else _] => destruct b end.

Section ListFacts.
Context {A : Type} (P : A → Prop) `{!∀ x, Decision (P x)}.

Lemma filter_none (l : list A) :
  (∀ i x, l !! i = Some x → ¬ P x) → filter P l = [].
Proof.
  induction l as [|a l IH]; intros Hno; [done|].
  rewrite filter_cons. destruct (decide (P a)) as [Ha|Ha].
  - destruct (Hno 0 a eq_refl Ha).
  - apply IH. intros i x Hi. apply (Hno (S i) x Hi).
Qed.

Lemma filter_at_most_one (l : list A) (c : option nat) :
  (∀ i x, l !! i = Some x → P x → c = Some i) → length (filter P l) ≤ 1.
Proof.
  revert c. induction l as [|a l IH]; intros c Hc; [simpl; lia|].
  rewrite filter_cons. destruct (decide (P a)) as [Ha|Ha].
  - rewrite filter_none; [simpl; lia|].
    intros i x Hi Hx. pose proof (Hc 0 a eq_refl Ha) as H0.
    pose proof (Hc (S i) x Hi Hx) as H1. congruence.
  - apply (IH (pred <$> c)). intros i x Hi Hx.
    by rewrite (Hc (S i) x Hi Hx).
Qed.
End ListFacts.

(* ===================================================================== *)
(** ** The connection manager *)
(* ===================================================================== *)

Section ConnectionManager.
Import Hook.

Lemma current_only_live s : current_only s → live_channels s ≤ 1.
Proof. intros H. unfold live_channels. by apply (filter_at_most_one _ _ (wsRef s)). Qed.

Lemma current_only_init o : current_only (init o).
Proof. intros i r Hi. simpl in Hi. by rewrite lookup_nil in Hi. Qed.

Lemma current_is_spec r s :
  current_is r s = true ↔ ∃ ws, wsRef s = Some ws ∧ sockets s !! ws = Some r.
Proof.
  unfold current_is. destruct (wsRef s) as [ws|]; [|split; [done|by intros (?&?&?)]].
  rewrite bool_decide_eq_true. split; [eauto|]. by intros (? & [= <-] & ?).
Qed.

Lemma no_live_socket s :
  current_only s → current_is OPEN s = false → current_is CONNECTING s = false →
  ∀ i r, sockets s !! i = Some r → live r = false.
Proof.
  intros Hinv Ho Hc i r Hi. destruct (live r) eqn:Hl; [|done].
  pose proof (Hinv i r Hi Hl) as Hws.
  destruct r; try done.
  - assert (current_is CONNECTING s = true) by (apply current_is_spec; eauto). congruence.
  - assert (current_is OPEN s = true) by (apply current_is_spec; eauto). congruence.
Qed.

Lemma connect_current_only env s :
  current_only s → current_is CONNECTING s = false → current_only (connect env s).
Proof.
  intros Hinv Hc. unfold connect.
  destruct (current_is OPEN s) eqn:Ho; [done|].
  destruct (url_accepted env (wsUrl env)); [|done].
  intros i r Hi Hl. simpl in *.
  apply lookup_app_Some in Hi as [Hi|[Hlen Hi]].
  - by rewrite (no_live_socket s Hinv Ho Hc i r Hi) in Hl.
  - f_equal. apply list_lookup_singleton_Some in Hi as [Hi _]. lia.
Qed.

Lemma disconnect_frame s :
  sockets (disconnect s)
  = match wsRef s with
    | Some ws => alter close_socket ws (sockets s)
    | None => sockets s
    end
  ∧ wsRef (disconnect s) = None.
Proof.
  unfold disconnect.
  destruct (reconnectTimeoutRef s); simpl; destruct (pingIntervalRef s); simpl;
    destruct (wsRef s) eqn:Hws; simpl; done.
Qed.

Lemma close_socket_not_live r : live (close_socket r) = false.
Proof. by destruct r. Qed.

Lemma disconnect_current_only s : current_only s → current_only (disconnect s).
Proof.
  intros Hinv i r Hi Hl. destruct (disconnect_frame s) as [Hs Hw].
  rewrite Hs in Hi. destruct (wsRef s) as [ws|] eqn:Hws.
  - destruct (decide (i = ws)) as [->|Hne].
    + rewrite list_lookup_alter_eq in Hi. destruct (sockets s !! ws) as [r0|]; [|done].
      simpl in Hi. injection Hi as <-. by rewrite close_socket_not_live in Hl.
    + rewrite list_lookup_alter_ne in Hi by done.
      pose proof (Hinv i r Hi Hl). congruence.
  - pose proof (Hinv i r Hi Hl). congruence.
Qed.

Lemma onopen_frame ws s : sockets (onopen ws s) = sockets s ∧ wsRef (onopen ws s) = wsRef s.
Proof. done. Qed.

Lemma onclose_frame s : sockets (onclose s) = sockets s ∧ wsRef (onclose s) = wsRef s.
Proof. unfold onclose. simpl. by destruct (pingIntervalRef s). Qed.

Lemma onmessage_frame p s :
  sockets (onmessage p s) = sockets s ∧ wsRef (onmessage p s) = wsRef s.
Proof.
  unfold onmessage. destruct p as [m|]; [|done].
  case_ifs; done.
Qed.

Lemma current_only_frame s s' :
  sockets s' = sockets s → wsRef s' = wsRef s → current_only s → current_only s'.
Proof. unfold current_only. intros -> ->. done. Qed.

Lemma current_is_frame r s s' :
  sockets s' = sockets s → wsRef s' = wsRef s → current_is r s' = current_is r s.
Proof. unfold current_is. by intros -> ->. Qed.

Lemma set_ready_current_only s ws r0 r :
  current_only s → sockets s !! ws = Some r0 → live r0 = true →
  current_only (set_sockets (<[ws := r]> (sockets s)) s).
Proof.
  intros Hinv Hws Hl0 i x Hi Hl. simpl in *.
  destruct (decide (i = ws)) as [->|Hne].
  - by apply (Hinv ws r0).
  - rewrite list_lookup_insert_ne in Hi by done. by apply (Hinv i x).
Qed.

Lemma set_closed_current_only s ws :
  current_only s → current_only (set_sockets (<[ws := CLOSED]> (sockets s)) s).
Proof.
  intros Hinv i x Hi Hl. simpl in *.
  destruct (decide (i = ws)) as [->|Hne].
  - apply list_lookup_insert_Some in Hi as [(_ & <- & _)|[? _]]; done.
  - rewrite list_lookup_insert_ne in Hi by done. by apply (Hinv i x).
Qed.

Lemma step_current_only env s e :
  current_only s →
  calls_connect s e && current_is CONNECTING s = false →
  current_only (step env s e).
Proof.
  intros Hinv Hg. destruct e as [| |o|ws|ws p|ws|ws|id|id]; simpl in *.
  - by apply connect_current_only.
  - by apply disconnect_current_only.
  - done.
  - destruct (sockets s !! ws) as [[]|] eqn:Hws; try done.
    eapply current_only_frame; [apply onopen_frame..|].
    by eapply set_ready_current_only.
  - destruct (sockets s !! ws) as [[]|]; try done.
    eapply current_only_frame; [apply onmessage_frame..|done].
  - by destruct (sockets s !! ws).
  - destruct (sockets s !! ws) as [[]|] eqn:Hws; try done;
      (eapply current_only_frame; [apply onclose_frame..|]);
      by apply set_closed_current_only.
  - destruct (timeouts s !! id) eqn:Hid; [|done].
    rewrite bool_decide_eq_true_2 in Hg by eauto. simpl in Hg.
    apply connect_current_only; [done|].
    by rewrite (current_is_frame _ s).
  - destruct (intervals s !! id) as [[? ws]|]; [|done].
    unfold ping. by case_bool_decide.
Qed.

Lemma run_current_only env evs : ∀ s,
  current_only s → settled env s evs = true → current_only (run env s evs).
Proof.
  induction evs as [|e evs IH]; intros s Hinv Hg; [done|].
  simpl in Hg. apply andb_true_iff in Hg as [Hg1 Hg2].
  apply negb_true_iff in Hg1. simpl. apply IH; [|done].
  by apply step_current_only.
Qed.

Lemma settled_take env evs : ∀ s n,
  settled env s evs = true → settled env s (take n evs) = true.
Proof.
  induction evs as [|e evs IH]; intros s [|n] Hg; try done.
  simpl in *. apply andb_true_iff in Hg as [-> Hg2]. simpl. by apply IH.
Qed.

Lemma connect_open_noop env s : current_is OPEN s = true → connect env s = s.
Proof. unfold connect. by intros ->. Qed.

Lemma onclose_schedules_reconnect s :
  timeouts (onclose s) = <[nextTimer s := reconnect_delay]> (timeouts s)
  ∧ reconnectTimeoutRef (onclose s) = Some (nextTimer s)
  ∧ nextTimer (onclose s) = Pos.succ (nextTimer s).
Proof. unfold onclose. simpl. by destruct (pingIntervalRef s). Qed.

Lemma disconnect_cancels_timers s :
  (∀ id, reconnectTimeoutRef s = Some id → timeouts (disconnect s) !! id = None)
  ∧ (∀ id, pingIntervalRef s = Some id → intervals (disconnect s) !! id = None).
Proof.
  unfold disconnect. split; intros id Hid.
  - rewrite Hid. simpl. destruct (pingIntervalRef s); simpl;
      destruct (wsRef s); simpl; by rewrite lookup_delete_eq.
  - destruct (reconnectTimeoutRef s); simpl; rewrite Hid; simpl;
      destruct (wsRef s); simpl; by rewrite lookup_delete_eq.
Qed.

Lemma timers_fresh_init o : timers_fresh (init o).
Proof. split; intros id x; simpl; by rewrite lookup_empty. Qed.

Lemma timers_fresh_frame s s' :
  timeouts s' = timeouts s → intervals s' = intervals s → nextTimer s' = nextTimer s →
  timers_fresh s → timers_fresh s'.
Proof. unfold timers_fresh. by intros -> -> ->. Qed.

Lemma timers_fresh_clearTimeout id s : timers_fresh s → timers_fresh (clearTimeout id s).
Proof.
  intros [Ht Hi]. split; simpl; [|done].
  intros id' x Hx. apply lookup_delete_Some in Hx as [_ Hx]. eauto.
Qed.

Lemma timers_fresh_clearInterval id s : timers_fresh s → timers_fresh (clearInterval id s).
Proof.
  intros [Ht Hi]. split; simpl; [done|].
  intros id' x Hx. apply lookup_delete_Some in Hx as [_ Hx]. eauto.
Qed.

Lemma timers_fresh_setTimeout delay s :
  timers_fresh s → timers_fresh (setTimeout delay s).2.
Proof.
  intros [Ht Hi]. split; simpl.
  - intros id x Hx. apply lookup_insert_Some in Hx as [[<- _]|[_ Hx]]; [lia|].
    specialize (Ht _ _ Hx). lia.
  - intros id x Hx. specialize (Hi _ _ Hx). lia.
Qed.

Lemma timers_fresh_setInterval period ws s :
  timers_fresh s → timers_fresh (setInterval period ws s).2.
Proof.
  intros [Ht Hi]. split; simpl.
  - intros id x Hx. specialize (Ht _ _ Hx). lia.
  - intros id x Hx. apply lookup_insert_Some in Hx as [[<- _]|[_ Hx]]; [lia|].
    specialize (Hi _ _ Hx). lia.
Qed.

Lemma timers_fresh_connect env s : timers_fresh s → timers_fresh (connect env s).
Proof. unfold connect. by case_ifs. Qed.

Lemma timers_fresh_disconnect s : timers_fresh s → timers_fresh (disconnect s).
Proof.
  intros H. unfold disconnect.
  set (s1 := match reconnectTimeoutRef s with Some id => clearTimeout id s | None => s end).
  assert (timers_fresh s1) as H1
    by (subst s1; destruct (reconnectTimeoutRef s); auto using timers_fresh_clearTimeout).
  set (s2 := match pingIntervalRef s1 with Some id => clearInterval id s1 | None => s1 end).
  assert (timers_fresh s2) as H2
    by (subst s2; destruct (pingIntervalRef s1); auto using timers_fresh_clearInterval).
  by destruct (wsRef s2).
Qed.

Lemma timers_fresh_onopen ws s : timers_fresh s → timers_fresh (onopen ws s).
Proof.
  intros H. unfold onopen.
  apply (timers_fresh_setInterval ping_period ws
           (emit (invoke (onConnect (callbacksRef s)) CallConnect)
              (setConnectionError None (setIsConnected true s)))).
  by apply (timers_fresh_frame s).
Qed.

Lemma timers_fresh_onclose s : timers_fresh s → timers_fresh (onclose s).
Proof.
  intros H. unfold onclose.
  set (s1 := emit _ (setIsConnected false s)).
  assert (timers_fresh s1) as H1 by by apply (timers_fresh_frame s).
  set (s2 := match pingIntervalRef s1 with Some id => clearInterval id s1 | None => s1 end).
  assert (timers_fresh s2) as H2
    by (subst s2; destruct (pingIntervalRef s1); auto using timers_fresh_clearInterval).
  apply (timers_fresh_setTimeout reconnect_delay s2 H2).
Qed.

Lemma timers_fresh_onmessage p s : timers_fresh s → timers_fresh (onmessage p s).
Proof. unfold onmessage. destruct p; [|done]. by case_ifs. Qed.

Lemma timers_fresh_step env s e : timers_fresh s → timers_fresh (step env s e).
Proof.
  intros H. destruct e as [| |o|ws|ws p|ws|ws|id|id]; simpl.
  - by apply timers_fresh_connect.
  - by apply timers_fresh_disconnect.
  - done.
  - destruct (sockets s !! ws) as [[]|]; try done. by apply timers_fresh_onopen.
  - destruct (sockets s !! ws) as [[]|]; try done. by apply timers_fresh_onmessage.
  - by destruct (sockets s !! ws).
  - destruct (sockets s !! ws) as [[]|]; try done; by apply timers_fresh_onclose.
  - destruct (timeouts s !! id); [|done].
    by apply timers_fresh_connect, timers_fresh_clearTimeout.
  - destruct (intervals s !! id) as [[? ws]|]; [|done]. unfold ping. by case_ifs.
Qed.

Lemma timers_fresh_run env evs : ∀ s, timers_fresh s → timers_fresh (run env s evs).
Proof.
  induction evs as [|e evs IH]; intros s H; [done|].
  simpl. by apply IH, timers_fresh_step.
Qed.

(** Every close event on a socket that is not yet closed, whatever closed
    it, schedules exactly one reconnect, [reconnect_delay] later: the timer
    table gains one entry, under a fresh identifier. *)
Theorem close_event_schedules_one_reconnect env o evs ws r :
  let s := run env (init o) evs in
  sockets s !! ws = Some r → r ≠ CLOSED →
  let s' := step env s (WsClose ws) in
  timeouts s !! nextTimer s = None
  ∧ timeouts s' = <[nextTimer s := reconnect_delay]> (timeouts s)
  ∧ size (timeouts s') = S (size (timeouts s)).
Proof.
  intros s Hws Hr s'.
  assert (timeouts s !! nextTimer s = None) as Hfresh.
  { destruct (timeouts s !! nextTimer s) eqn:Hn; [|done].
    destruct (timers_fresh_run env evs (init o) (timers_fresh_init o)) as [Ht _].
    specialize (Ht _ _ Hn). by apply Pos.lt_irrefl in Ht. }
  assert (timeouts s' = <[nextTimer s := reconnect_delay]> (timeouts s)) as Heq.
  { subst s'. simpl. rewrite Hws.
    destruct r; try done;
      match goal with |- context [onclose ?x] =>
        by destruct (onclose_schedules_reconnect x) as (-> & _) end. }
  split_and!; [done..|]. rewrite Heq. by apply map_size_insert_None.
Qed.

(** C1 (amended).  [connect] on a hook whose current socket is open
    changes nothing, so it creates no second channel; and in every run from
    mount in which [connect] is never entered while the current socket is
    still connecting, at most one channel is live (connecting or open) at
    every instant of the run. *)
Theorem connect_single_live_channel env o :
  (∀ s, current_is OPEN s = true →
        connect env s = s ∧ live_channels (connect env s) = live_channels s)
  ∧ (∀ evs n, settled env (init o) evs = true →
              live_channels (run env (init o) (take n evs)) ≤ 1).
Proof.
  split.
  - intros s Hopen. by rewrite connect_open_noop.
  - intros evs n Hs. apply current_only_live, run_current_only.
    + apply current_only_init.
    + by apply settled_take.
Qed.

(** C1, an instance: a session that connects, loses the channel, reconnects
    from the timer and is finally torn down. *)
Lemma connect_single_live_channel_witness :
  let s := run Scenario.page (init Scenario.subscriber) [Connect; WsOpen 0] in
  let evs := [Connect; WsOpen 0; WsClose 0; TimeoutFire 2; WsOpen 1; Disconnect; WsClose 1] in
  current_is OPEN s = true
  ∧ settled Scenario.page (init Scenario.subscriber) evs = true
  ∧ connect Scenario.page s = s
  ∧ live_channels (run Scenario.page (init Scenario.subscriber) (take 5 evs)) ≤ 1.
Proof.
  assert (H1 : current_is OPEN (run Scenario.page (init Scenario.subscriber) [Connect; WsOpen 0]) = true)
    by (vm_compute; reflexivity).
  assert (H2 : settled Scenario.page (init Scenario.subscriber)
                 [Connect; WsOpen 0; WsClose 0; TimeoutFire 2; WsOpen 1; Disconnect; WsClose 1] = true)
    by (vm_compute; reflexivity).
  pose proof (connect_single_live_channel Scenario.page Scenario.subscriber) as [Hnoop Hlive].
  exact (conj H1 (conj H2 (conj (proj1 (Hnoop _ H1)) (Hlive _ 5 H2)))).
Defined.

(** C1 as stated fails: [connect] entered while the only socket is still
    connecting creates a second socket next to it, and both can go on to
    open. *)
Lemma connect_while_connecting_duplicates :
  let s := run Scenario.page (init Scenario.subscriber) [Connect] in
  current_is CONNECTING s = true
  ∧ sockets (connect Scenario.page s) = [CONNECTING; CONNECTING]
  ∧ live_channels (connect Scenario.page s) = 2
  ∧ sockets (run Scenario.page (init Scenario.subscriber) [Connect; Connect; WsOpen 0; WsOpen 1])
    = [OPEN; OPEN].
Proof. vm_compute. done. Qed.

(** C2 at the failing input: mount, handshake, [disconnect()], then the
    close event of the socket [disconnect] closed.  [disconnect] leaves no
    timer pending, but the close event runs [ws.onclose], which schedules
    a reconnect after 5000 ms; when it fires, a new socket is created. *)
Theorem close_event_after_disconnect_reconnects :
  let s := run Scenario.page (init Scenario.subscriber) [Connect; WsOpen 0; Disconnect] in
  let closed := step Scenario.page s (WsClose 0) in
  sockets s = [CLOSING] ∧ timeouts s = ∅
  ∧ timeouts closed = {[ 2%positive := reconnect_delay ]}
  ∧ sockets (step Scenario.page closed (TimeoutFire 2)) = [CLOSED; CONNECTING].
Proof. vm_compute. done. Qed.
End ConnectionManager.

(* ===================================================================== *)
(** ** The dispatcher and the callback registry *)
(* ===================================================================== *)

Section Dispatcher.
Import Hook.

Lemma emit_nil s : emit [] s = s.
Proof. destruct s. unfold emit. simpl. by rewrite app_nil_r. Qed.

Lemma onmessage_dispatch parsed s :
  onmessage parsed s = emit (dispatch (callbacksRef s) parsed) s.
Proof.
  unfold dispatch, onmessage. destruct parsed as [message|]; [|by rewrite emit_nil].
  case_ifs; simpl; rewrite ?emit_nil; try done.
Qed.

(** C6 (amended).  A [signals_update] envelope that arrives on an open
    socket and carries a truthy [data] payload makes the dispatcher call
    the registered on-signals callback, when there is one, exactly once,
    and change nothing else; the four arguments are [data.signals] (the
    empty array when absent or falsy), [data.cached] ([false] when absent
    or falsy), [data.cache_age] ([null] when absent or falsy, which
    includes 0) and the envelope's [error] ([null] when absent or empty).
    Without a truthy payload nothing is called and the state is
    unchanged. *)
Theorem signals_update_dispatch env s ws fields :
  sockets s !! ws = Some OPEN →
  fields !! "type" = Some (Js.Str "signals_update") →
  let data := Js.get (Js.Obj fields) "data" in
  let delivered := step env s (WsMessage ws (Some (Js.Obj fields))) in
  let call cb :=
    CallSignalsUpdate cb
      (if Js.truthy (Js.get data "signals") then Js.get data "signals" else Js.Arr [])
      (if Js.truthy (Js.get data "cached") then Js.get data "cached" else Js.Bool false)
      (if Js.truthy (Js.get data "cache_age") then Js.get data "cache_age" else Js.Null)
      (if Js.truthy (Js.get (Js.Obj fields) "error")
       then Js.get (Js.Obj fields) "error" else Js.Null) in
  if Js.truthy data then
    match onSignalsUpdate (callbacksRef s) with
    | Some cb => delivered = emit [call cb] s
    | None => delivered = s
    end
  else delivered = s.
Proof.
  intros Hopen Htype.
  assert (Js.get (Js.Obj fields) "type" = Js.Str "signals_update") as Hty
    by (unfold Js.get; by rewrite Htype).
  unfold step. rewrite Hopen. unfold onmessage. rewrite Hty.
  cbn [Js.nullish Js.is_str]. rewrite String.eqb_refl. unfold Js.or_else.
  destruct (Js.truthy (Js.get (Js.Obj fields) "data")); [|done].
  destruct (onSignalsUpdate (callbacksRef s)); cbn [invoke]; [done|apply emit_nil].
Qed.

(** C6, an instance: a cached update with one signal. *)
Lemma signals_update_dispatch_witness :
  let fields : gmap string Js.value :=
    {[ "type" := Js.Str "signals_update";
       "data" := Js.Obj {[ "signals" := Js.Arr [Js.Str "m1"]; "cached" := Js.Bool true ]} ]} in
  let s := run Scenario.page (init Scenario.subscriber) [Connect; WsOpen 0] in
  sockets s !! 0 = Some OPEN
  ∧ fields !! "type" = Some (Js.Str "signals_update")
  ∧ step Scenario.page s (WsMessage 0 (Some (Js.Obj fields)))
    = emit [CallSignalsUpdate 1 (Js.Arr [Js.Str "m1"]) (Js.Bool true) Js.Null Js.Null] s.
Proof.
  refine (conj _ (conj _ _)); [vm_compute; reflexivity..|].
  exact (signals_update_dispatch Scenario.page
           (run Scenario.page (init Scenario.subscriber) [Connect; WsOpen 0]) 0
           {[ "type" := Js.Str "signals_update";
              "data" := Js.Obj {[ "signals" := Js.Arr [Js.Str "m1"]; "cached" := Js.Bool true ]} ]}
           ltac:(vm_compute; reflexivity) ltac:(vm_compute; reflexivity)).
Defined.

(** C6 as stated fails: a well-formed [signals_update] envelope without
    [data] reaches no callback although one is registered; and a
    [cache_age] of 0 is handed over as [null]. *)
Lemma signals_update_without_payload_dropped :
  let s := run Scenario.page (init Scenario.subscriber) [Connect; WsOpen 0] in
  let bare := Js.Obj {[ "type" := Js.Str "signals_update" ]} in
  let fresh_cache :=
    Js.Obj {[ "type" := Js.Str "signals_update";
              "data" := Js.Obj {[ "signals" := Js.Arr [Js.Str "m1"];
                                  "cache_age" := Js.Num 0%Qc ]} ]} in
  onSignalsUpdate (callbacksRef s) = Some 1
  ∧ step Scenario.page s (WsMessage 0 (Some bare)) = s
  ∧ effects (step Scenario.page s (WsMessage 0 (Some fresh_cache)))
    = effects s ++ [CallSignalsUpdate 1 (Js.Arr [Js.Str "m1"]) (Js.Bool false) Js.Null Js.Null].
Proof. vm_compute. done. Qed.

(** C8.  An envelope whose [type] is none of [signals_update],
    [whale_trade], [connection_ack], [pong] leaves the hook exactly as it
    was: no callback is invoked, [connectionError] and [isConnected] keep
    their values, and no socket or timer changes. *)
Theorem unknown_type_dropped env s ws message :
  Js.get message "type" ∉
    [Js.Str "signals_update"; Js.Str "whale_trade"; Js.Str "connection_ack"; Js.Str "pong"] →
  step env s (WsMessage ws (Some message)) = s.
Proof.
  intros Hty. simpl. destruct (sockets s !! ws) as [[]|]; try done.
  unfold onmessage. destruct (Js.nullish message); [done|].
  assert (∀ t, Js.is_str t (Js.get message "type") = true → Js.get message "type" = Js.Str t) as Hstr.
  { intros t. destruct (Js.get message "type"); simpl; try done.
    by intros ->%String.eqb_eq. }
  destruct (Js.is_str "signals_update" _) eqn:H1.
  { apply Hstr in H1. rewrite H1 in Hty. set_solver. }
  destruct (Js.is_str "whale_trade" _) eqn:H2.
  { apply Hstr in H2. rewrite H2 in Hty. set_solver. }
  by case_ifs.
Qed.

(** C8, an instance. *)
Lemma unknown_type_dropped_witness :
  let s := run Scenario.page (init Scenario.subscriber) [Connect; WsOpen 0] in
  let message := Js.Obj {[ "type" := Js.Str "price_tick"; "data" := Js.Num 1%Qc ]} in
  step Scenario.page s (WsMessage 0 (Some message)) = s.
Proof.
  apply unknown_type_dropped. vm_compute.
  intros H. repeat (apply elem_of_cons in H as [H|H]; [discriminate H|]).
  by apply elem_of_nil in H.
Defined.

(** The registry of this hook: a new option bag changes neither the
    sockets, nor [wsRef], nor the timers, and the next message on an open
    socket reaches the callbacks of the new bag. *)
Theorem options_change_keeps_channel env s o ws parsed :
  let s' := step env s (OptionsChange o) in
  sockets s' = sockets s ∧ wsRef s' = wsRef s
  ∧ timeouts s' = timeouts s ∧ intervals s' = intervals s
  ∧ isConnected s' = isConnected s ∧ effects s' = effects s
  ∧ (sockets s !! ws = Some OPEN →
     effects (step env s' (WsMessage ws parsed)) = effects s ++ dispatch o parsed).
Proof.
  simpl. repeat split. intros ->. by rewrite onmessage_dispatch.
Qed.
End Dispatcher.

Section LegacyRegistry.
Import LegacyHook.

(** C7 at the failing input, in the older copy of the hook: mount with
    one option bag, handshake, then a render with a new bag.  The open
    channel is closed and a new one is created for the new bag. *)
Theorem legacy_options_change_reopens_channel :
  let s := run Scenario.page (init Scenario.subscriber) [Connect; WsOpen 0] in
  let s' := step Scenario.page s (OptionsChange Scenario.next_subscriber) in
  sockets s = [(OPEN, Scenario.subscriber)] ∧ wsRef s = Some 0
  ∧ sockets s' = [(CLOSING, Scenario.subscriber); (CONNECTING, Scenario.next_subscriber)]
  ∧ wsRef s' = Some 1.
Proof. vm_compute. done. Qed.
End LegacyRegistry.

(* ===================================================================== *)
(** ** The page: filter engine, pulls, pushes, whale-trade buffer *)
(* ===================================================================== *)

Section Page.
Import Dashboard.

(** C3.  With the scenario's profile stored for the active view and the
    scenario's three records displayed, the visible subset is exactly the
    first record, whatever the active view and the strategy of the hot
    view. *)
Theorem filter_scenario_first_only tab hs :
  let d := handleSettingsUpdate Scenario.profile
             (setActiveTab tab (setHotSettings hs
                (setSignals [Scenario.first; Scenario.second; Scenario.third] initial))) in
  activeSettings d = Scenario.profile ∧ filteredSignals d = [Scenario.first].
Proof.
  split.
  - unfold activeSettings, handleSettingsUpdate. simpl. by rewrite lookup_insert_eq.
  - unfold filteredSignals.
    replace (activeSettings _) with Scenario.profile
      by (unfold activeSettings, handleSettingsUpdate; simpl; by rewrite lookup_insert_eq).
    cbn [signals handleSettingsUpdate setTabSettings setActiveTab setHotSettings setSignals
         activeTab hotSettings].
    rewrite !filter_cons, filter_nil.
    assert (visible tab hs Scenario.profile Scenario.first = true) as ->.
    { unfold visible. destruct tab; simpl;
        destruct (String.eqb (strategy hs) "whale"), (String.eqb (strategy hs) "scalp");
        vm_compute; reflexivity. }
    assert (visible tab hs Scenario.profile Scenario.second = false) as -> by reflexivity.
    assert (visible tab hs Scenario.profile Scenario.third = false) as -> by reflexivity.
    done.
Qed.

Lemma fetchSignals_catch_frame e d :
  signals (fetchSignals_catch e d) = signals d
  ∧ lastUpdate (fetchSignals_catch e d) = lastUpdate d
  ∧ ∃ m, error (fetchSignals_catch e d) = Some m.
Proof.
  unfold fetchSignals_catch.
  destruct (includes _ _ || includes _ _); simpl; eauto.
Qed.




(** X28.  A pull that fails, by a rejected request or by a reply outside
    200..299, leaves the displayed record set and the time of the last
    update unchanged, whatever the view.  It sets an error message when
    the request was rejected, and when the pull is not the arbitrage pull
    of the hot view. *)
Theorem pull_failure_keeps_records tab hs now r d :
  failed r = true →
  let d' := fetchSignals_settle tab hs now r d in
  signals d' = signals d
  ∧ lastUpdate d' = lastUpdate d
  ∧ (is_arbitrage tab hs = false ∨ (∃ e, r = Rejected e) → ∃ m, error d' = Some m).
Proof.
  intros Hf. unfold fetchSignals_settle.
  destruct r as [e|status body]; simpl in Hf.
  - destruct (is_arbitrage tab hs);
      destruct (fetchSignals_catch_frame e d) as (? & ? & ?); auto.
  - apply negb_true_iff in Hf. rewrite Hf. simpl.
    destruct (is_arbitrage tab hs); [by split_and!; [..|intros [|[? ?]]]|].
    destruct (status =? 404)%N;
      match goal with |- context [fetchSignals_catch ?e d] =>
        destruct (fetchSignals_catch_frame e d) as (? & ? & ?) end; auto.
Qed.

(** X28, an instance: the listing endpoint answers 503. *)
Lemma pull_failure_keeps_records_witness :
  let d := setSignals [Scenario.stale] initial in
  let d' := fetchSignals 1700000000000 (Replied 503 (inl ThrownOther)) d in
  failed (Replied 503 (inl ThrownOther)) = true
  ∧ signals d' = [Scenario.stale] ∧ error d' = Some "HTTP 503".
Proof.
  pose proof (pull_failure_keeps_records scanner (hotSettings initial) 1700000000000
                (Replied 503 (inl ThrownOther))
                (fetchSignals_begin (setSignals [Scenario.stale] initial)) eq_refl) as (Hs & _ & _).
  refine (conj eq_refl (conj Hs _)). vm_compute. reflexivity.
Defined.

(** C5 at the failing input: the arbitrage pull of the hot view, answered
    with any status outside 200..299.  The pull has failed, yet no error
    message is set (the one shown before was cleared when the pull began);
    the record set, the time of the last update and the opportunities are
    left as they were.  The same reply to the same view under any other
    strategy, which takes the listing path of [fetchSignals], does set an
    error message. *)
Theorem arbitrage_pull_drops_http_failure now status body d :
  activeTab d = hot → strategy (hotSettings d) = "arbitrage" → ok status = false →
  let r := Replied status body in
  let d' := fetchSignals now r d in
  failed r = true
  ∧ error d' = None
  ∧ signals d' = signals d ∧ lastUpdate d' = lastUpdate d
  ∧ arbitrageOpps d' = arbitrageOpps d
  ∧ isLoading d' = false
  ∧ ∀ hs, strategy hs ≠ "arbitrage" →
      ∃ m, error (fetchSignals now r (setHotSettings hs d)) = Some m.
Proof.
  intros Htab Hs Hok. unfold fetchSignals, fetchSignals_settle, is_arbitrage.
  split_and!.
  - simpl. by rewrite Hok.
  - rewrite Htab, Hs. simpl. by rewrite Hok.
  - rewrite Htab, Hs. simpl. by rewrite Hok.
  - rewrite Htab, Hs. simpl. by rewrite Hok.
  - rewrite Htab, Hs. simpl. by rewrite Hok.
  - rewrite Htab, Hs. simpl. by rewrite Hok.
  - intros hs Hne. cbn [activeTab hotSettings setHotSettings fetchSignals_begin setError].
    rewrite Htab. simpl.
    destruct (String.eqb_spec (strategy hs) "arbitrage") as [|_]; [done|].
    rewrite Hok. simpl.
    destruct (status =? 404)%N;
      match goal with |- context [fetchSignals_catch ?e ?d] =>
        destruct (fetchSignals_catch_frame e d) as (_ & _ & ?) end; done.
Qed.

(** C5, the failing input itself: the arbitrage endpoint answers 500 while
    an older message and one record are displayed; under the whale
    strategy the same answer is reported as [HTTP 500]. *)
Lemma arbitrage_pull_drops_http_failure_witness :
  let hs := mkHot EmptyString EmptyString "arbitrage" in
  let d := setError (Some "old") (setHotSettings hs
             (setActiveTab hot (setSignals [Scenario.stale] initial))) in
  let r := Replied 500 (inl ThrownOther) in
  let d' := fetchSignals 1700000000000 r d in
  activeTab d = hot ∧ strategy (hotSettings d) = "arbitrage" ∧ ok 500 = false
  ∧ failed r = true ∧ error d' = None ∧ signals d' = [Scenario.stale]
  ∧ error (fetchSignals 1700000000000 r
             (setHotSettings (mkHot EmptyString EmptyString "whale") d)) = Some "HTTP 500".
Proof.
  destruct (arbitrage_pull_drops_http_failure 1700000000000 500 (inl ThrownOther)
              (setError (Some "old") (setHotSettings (mkHot EmptyString EmptyString "arbitrage")
                 (setActiveTab hot (setSignals [Scenario.stale] initial))))
              eq_refl eq_refl eq_refl) as (Hf & He & Hs & _).
  refine (conj eq_refl (conj eq_refl (conj eq_refl (conj Hf (conj He (conj Hs _)))))).
  vm_compute. reflexivity.
Defined.

Lemma push_all_spec trades : ∀ d,
  length (whaleTrades d) ≤ whale_capacity →
  whaleTrades (foldl (λ d t, onWhaleTrade t d) d trades)
  = take whale_capacity (reverse trades ++ whaleTrades d).
Proof.
  induction trades as [|t trades IH]; intros d Hlen; simpl.
  - by rewrite take_ge.
  - rewrite IH.
    + simpl. rewrite reverse_cons, <-app_assoc. simpl.
      destruct (decide (length (reverse trades) ≤ whale_capacity)) as [Hle|Hgt].
      * rewrite !take_app_ge by done. f_equal.
        destruct (whale_capacity - length (reverse trades)) as [|k] eqn:Hk; [done|].
        simpl. f_equal. rewrite take_take. f_equal. unfold whale_capacity in *. lia.
      * rewrite !take_app_le by lia. done.
    + simpl. rewrite length_take. unfold whale_capacity. lia.
Qed.

(** C9.  A push stores the new trade, at the front, and never leaves more
    than the capacity (20) in the buffer.  Starting from a buffer within
    capacity and pushing any sequence of trades, the buffer stays within
    capacity and holds exactly the most recent trades, newest first; when
    the buffer is full, the trade a push evicts is the oldest, the last
    one. *)
Theorem whale_buffer_bounded_fifo :
  (∀ t d, length (whaleTrades (onWhaleTrade t d)) ≤ whale_capacity
          ∧ head (whaleTrades (onWhaleTrade t d)) = Some t)
  ∧ (∀ trades d,
       length (whaleTrades d) ≤ whale_capacity →
       let pushed := foldl (λ d t, onWhaleTrade t d) d trades in
       length (whaleTrades pushed) ≤ whale_capacity
       ∧ whaleTrades pushed = take whale_capacity (reverse trades ++ whaleTrades d))
  ∧ (∀ t d kept oldest,
       whaleTrades d = kept ++ [oldest] → length (whaleTrades d) = whale_capacity →
       whaleTrades (onWhaleTrade t d) = t :: kept).
Proof.
  split_and!.
  - intros t d. split; [|done].
    unfold onWhaleTrade. cbn [whaleTrades setWhaleTrades]. rewrite length_take. lia.
  - intros trades d Hlen pushed. assert (Hspec := push_all_spec trades d Hlen).
    change (whaleTrades pushed = take whale_capacity (reverse trades ++ whaleTrades d))
      in Hspec.
    split; [|done]. rewrite Hspec, length_take. lia.
  - intros t d kept oldest Hfull Hk. simpl. rewrite Hfull in *. f_equal.
    rewrite length_app in Hk. simpl in Hk. unfold whale_capacity in Hk.
    rewrite take_app_le by lia. by rewrite take_ge by lia.
Qed.

(** C9, an instance: 22 trades pushed on the empty buffer of a fresh page;
    the two oldest are gone. *)
Lemma whale_buffer_bounded_fifo_witness :
  let numbered n := Scenario.trade (pretty n) in
  let full := foldl (λ d t, onWhaleTrade t d) initial (numbered <$> seq 0 20) in
  let pushed := foldl (λ d t, onWhaleTrade t d) initial (numbered <$> seq 0 22) in
  length (whaleTrades initial) ≤ whale_capacity
  ∧ length (whaleTrades pushed) ≤ whale_capacity
  ∧ whaleTrades pushed = numbered <$> reverse (seq 2 20)
  ∧ whaleTrades full = (numbered <$> reverse (seq 1 19)) ++ [numbered 0]
  ∧ length (whaleTrades full) = whale_capacity
  ∧ whaleTrades (onWhaleTrade (numbered 20) full)
    = numbered 20 :: (numbered <$> reverse (seq 1 19)).
Proof.
  assert (H : length (whaleTrades initial) ≤ whale_capacity) by (vm_compute; lia).
  destruct whale_buffer_bounded_fifo as (_ & Hrun & Hevict).
  destruct (Hrun ((λ n, Scenario.trade (pretty n)) <$> seq 0 22) initial H) as (Hlen & Hbuf).
  pose proof (Hevict (Scenario.trade (pretty 20))
                (foldl (λ d t, onWhaleTrade t d) initial
                   ((λ n, Scenario.trade (pretty n)) <$> seq 0 20))
                ((λ n, Scenario.trade (pretty n)) <$> reverse (seq 1 19))
                (Scenario.trade (pretty 0)) eq_refl eq_refl) as Hev.
  exact (conj H (conj Hlen (conj Hbuf (conj eq_refl (conj eq_refl Hev))))).
Defined.

(** C10.  While the scanner view is active and live mode is on, a push
    with an empty signal list leaves the displayed record set and the time
    of the last update unchanged (indeed the whole page state). *)
Theorem empty_push_dropped now cached cacheAge wsError d :
  activeTab d = scanner → isLive d = true →
  let d' := onSignalsUpdate now [] cached cacheAge wsError d in
  signals d' = signals d ∧ lastUpdate d' = lastUpdate d ∧ d' = d.
Proof. intros Htab Hlive. unfold onSignalsUpdate. rewrite Htab, Hlive. done. Qed.
(** C10, an instance: a fresh page showing one record. *)
Lemma empty_push_dropped_witness :
  let d := setSignals [Scenario.stale] initial in
  activeTab d = scanner ∧ isLive d = true
  ∧ signals (onSignalsUpdate 1700000000000 [] false None None d) = [Scenario.stale].
Proof.
  refine (conj eq_refl (conj eq_refl _)).
  exact (proj1 (empty_push_dropped 1700000000000 false None None
                  (setSignals [Scenario.stale] initial) eq_refl eq_refl)).
Defined.
End Page.

(* ===================================================================== *)
(** ** More about the hook *)
(* ===================================================================== *)

Section HookBehaviour.
Import Hook.

(** X1, an instance: after the handshake the bag is replaced; the socket
    stays open and the next whale trade reaches the new callback. *)
Lemma options_change_keeps_channel_witness :
  let s := run Scenario.page (init Scenario.subscriber) [Connect; WsOpen 0] in
  let s' := step Scenario.page s (OptionsChange Scenario.next_subscriber) in
  let message := Js.Obj {[ "type" := Js.Str "whale_trade"; "data" := Js.Str "t1" ]} in
  sockets s !! 0 = Some OPEN
  ∧ sockets s' = [OPEN]
  ∧ effects (step Scenario.page s' (WsMessage 0 (Some message)))
    = effects s ++ [CallWhaleTrade 6 (Js.Str "t1")].
Proof.
  assert (H : sockets (run Scenario.page (init Scenario.subscriber) [Connect; WsOpen 0]) !! 0
              = Some OPEN) by (vm_compute; reflexivity).
  destruct (options_change_keeps_channel Scenario.page
              (run Scenario.page (init Scenario.subscriber) [Connect; WsOpen 0])
              Scenario.next_subscriber 0
              (Some (Js.Obj {[ "type" := Js.Str "whale_trade"; "data" := Js.Str "t1" ]})))
    as (Hs & _ & _ & _ & _ & _ & Hmsg).
  exact (conj H (conj Hs (Hmsg H))).
Defined.

(** X2, an instance: the close event of an open socket. *)
Lemma close_event_schedules_one_reconnect_witness :
  let s := run Scenario.page (init Scenario.subscriber) [Connect; WsOpen 0] in
  let s' := step Scenario.page s (WsClose 0) in
  sockets s !! 0 = Some OPEN
  ∧ timeouts s' = {[ 2%positive := 5000%N ]}
  ∧ size (timeouts s') = 1.
Proof.
  assert (H : sockets (run Scenario.page (init Scenario.subscriber) [Connect; WsOpen 0]) !! 0
              = Some OPEN) by (vm_compute; reflexivity).
  destruct (close_event_schedules_one_reconnect Scenario.page Scenario.subscriber
              [Connect; WsOpen 0] 0 OPEN H ltac:(discriminate)) as (_ & Ht & Hsz).
  exact (conj H (conj Ht Hsz)).
Defined.

Lemma disconnect_eq s :
  disconnect s
  = mkState
      (match wsRef s with
       | Some ws => alter close_socket ws (sockets s)
       | None => sockets s
       end)
      (match reconnectTimeoutRef s with
       | Some id => delete id (timeouts s)
       | None => timeouts s
       end)
      (match pingIntervalRef s with
       | Some id => delete id (intervals s)
       | None => intervals s
       end)
      (nextTimer s) None (reconnectTimeoutRef s) (pingIntervalRef s) (callbacksRef s)
      (isConnected s) (connectionError s) (effects s).
Proof.
  destruct s as [so ti iv nx [ws|] [r|] [p|] cb ic ce ef]; reflexivity.
Qed.

(** X3.  [disconnect] is safe to repeat: a second call changes nothing;
    after it [wsRef] is empty and the socket it held is no longer live. *)
Theorem disconnect_idempotent s :
  disconnect (disconnect s) = disconnect s
  ∧ wsRef (disconnect s) = None
  ∧ (∀ ws r, wsRef s = Some ws → sockets (disconnect s) !! ws = Some r → live r = false).
Proof.
  split_and!.
  - rewrite (disconnect_eq (disconnect s)), (disconnect_eq s). cbn [wsRef sockets timeouts
      intervals nextTimer reconnectTimeoutRef pingIntervalRef callbacksRef isConnected
      connectionError effects].
    f_equal.
    + destruct (reconnectTimeoutRef s); [apply delete_delete_eq|done].
    + destruct (pingIntervalRef s); [apply delete_delete_eq|done].
  - apply disconnect_frame.
  - intros ws r Hw Hr. destruct (disconnect_frame s) as [Hs _]. rewrite Hs, Hw in Hr.
    rewrite list_lookup_alter_eq in Hr. destruct (sockets s !! ws); simplify_eq/=.
    apply close_socket_not_live.
Qed.

(** X4.  A [whale_trade] envelope on an open socket with a truthy [data]
    payload calls the registered on-whale-trade callback, when there is
    one, once with that payload, and nothing else: no on-signals callback,
    no state change.  Without a truthy payload nothing happens. *)
Theorem whale_trade_dispatch env s ws fields :
  sockets s !! ws = Some OPEN →
  fields !! "type" = Some (Js.Str "whale_trade") →
  let data := Js.get (Js.Obj fields) "data" in
  let delivered := step env s (WsMessage ws (Some (Js.Obj fields))) in
  if Js.truthy data then
    match onWhaleTrade (callbacksRef s) with
    | Some cb => delivered = emit [CallWhaleTrade cb data] s
    | None => delivered = s
    end
  else delivered = s.
Proof.
  intros Hopen Htype.
  assert (Js.get (Js.Obj fields) "type" = Js.Str "whale_trade") as Hty
    by (unfold Js.get; by rewrite Htype).
  unfold step. rewrite Hopen. unfold onmessage. rewrite Hty.
  cbn [Js.nullish Js.is_str]. replace (String.eqb "whale_trade" "signals_update") with false by done.
  rewrite String.eqb_refl.
  destruct (Js.truthy (Js.get (Js.Obj fields) "data")); [|done].
  destruct (onWhaleTrade (callbacksRef s)); cbn [invoke]; [done|apply emit_nil].
Qed.

(** X4, an instance. *)
Lemma whale_trade_dispatch_witness :
  let fields : gmap string Js.value :=
    {[ "type" := Js.Str "whale_trade"; "data" := Js.Obj {[ "id" := Js.Str "t1" ]} ]} in
  let s := run Scenario.page (init Scenario.subscriber) [Connect; WsOpen 0] in
  sockets s !! 0 = Some OPEN
  ∧ fields !! "type" = Some (Js.Str "whale_trade")
  ∧ step Scenario.page s (WsMessage 0 (Some (Js.Obj fields)))
    = emit [CallWhaleTrade 2 (Js.Obj {[ "id" := Js.Str "t1" ]})] s.
Proof.
  refine (conj _ (conj _ _)); [vm_compute; reflexivity..|].
  exact (whale_trade_dispatch Scenario.page
           (run Scenario.page (init Scenario.subscriber) [Connect; WsOpen 0]) 0
           {[ "type" := Js.Str "whale_trade"; "data" := Js.Obj {[ "id" := Js.Str "t1" ]} ]}
           ltac:(vm_compute; reflexivity) ltac:(vm_compute; reflexivity)).
Defined.

(** X5.  Whatever arrives as a message, parsed or not, the hook changes in
    nothing but its trace of calls: at most one call is added, it is a call
    of the registered on-signals or on-whale-trade callback, and a text that
    does not parse, or parses to [null], adds none. *)

Theorem message_only_calls_back env s ws parsed :
  ∃ es, step env s (WsMessage ws parsed) = emit es s
        ∧ length es ≤ 1
        ∧ Forall (registered (callbacksRef s)) es
        ∧ (parsed = None ∨ parsed = Some Js.Null → es = []).
Proof.
  unfold step. destruct (sockets s !! ws) as [[]|];
    try (exists []; rewrite emit_nil; split_and!; by auto).
  rewrite onmessage_dispatch. exists (dispatch (callbacksRef s) parsed).
  split; [done|]. unfold dispatch, onmessage.
  destruct parsed as [message|]; [|split_and!; by auto].
  destruct (Js.nullish message) eqn:Hn; [split_and!; by auto|].
  assert (¬ (Some message = None ∨ Some message = Some Js.Null)) as Hno.
  { intros [|[= ->]]; done. }
  case_ifs; simpl; (split_and!; [..|by intros ?]);
    try (simpl; lia); try by constructor.
  - destruct (onSignalsUpdate (callbacksRef s)); simpl; lia.
  - destruct (onSignalsUpdate (callbacksRef s)) eqn:?; simpl; repeat constructor; done.
  - destruct (onWhaleTrade (callbacksRef s)); simpl; lia.
  - destruct (onWhaleTrade (callbacksRef s)) eqn:?; simpl; repeat constructor; done.
Qed.

Lemma invoke_no_send cb call :
  (∀ f, ¬ is_send (call f)) → Forall (λ e, ¬ is_send e) (invoke cb call).
Proof. intros H. destruct cb; simpl; repeat constructor. apply H. Qed.

Lemma connect_effects env s : effects (connect env s) = effects s.
Proof. unfold connect. by case_ifs. Qed.

Lemma disconnect_effects s : effects (disconnect s) = effects s.
Proof.
  unfold disconnect.
  destruct (reconnectTimeoutRef s); simpl; destruct (pingIntervalRef s); simpl;
    destruct (wsRef s); done.
Qed.

Lemma onclose_effects s :
  effects (onclose s) = effects s ++ invoke (onDisconnect (callbacksRef s)) CallDisconnect.
Proof. unfold onclose. simpl. by destruct (pingIntervalRef s). Qed.

(** X6.  The only frame the hook ever sends is the ping, it is sent only by
    a tick of a running interval, and only when the socket of that interval
    is open at that moment. *)
Theorem only_ticks_send env s e :
  ∃ es, effects (step env s e) = effects s ++ es
        ∧ ∀ ws frame, Send ws frame ∈ es →
            frame = ping_frame ∧ sockets s !! ws = Some OPEN
            ∧ ∃ id period, e = IntervalTick id ∧ intervals s !! id = Some (period, ws).
Proof.
  assert (∀ es, Forall (λ e, ¬ is_send e) es →
            ∀ ws frame, Send ws frame ∈ es →
              frame = ping_frame ∧ sockets s !! ws = Some OPEN
              ∧ ∃ id period, e = IntervalTick id ∧ intervals s !! id = Some (period, ws)) as Hnone.
  { intros es Hes ws frame Hin. rewrite Forall_forall in Hes. destruct (Hes _ Hin). exact I. }
  assert (∀ s' : State, effects s' = effects s →
            ∃ es, effects s' = effects s ++ es
              ∧ ∀ ws frame, Send ws frame ∈ es →
                  frame = ping_frame ∧ sockets s !! ws = Some OPEN
                  ∧ ∃ id period, e = IntervalTick id ∧ intervals s !! id = Some (period, ws)) as Hsame.
  { intros s' ->. exists []. rewrite app_nil_r. split; [done|]. apply Hnone. constructor. }
  destruct e as [| |o|ws|ws p|ws|ws|id|id]; simpl.
  - apply Hsame, connect_effects.
  - apply Hsame, disconnect_effects.
  - by apply Hsame.
  - destruct (sockets s !! ws) as [[]|]; try by apply Hsame.
    simpl. refine (ex_intro _ _ (conj eq_refl _)). apply Hnone, invoke_no_send. intros f Hf; exact Hf.
  - destruct (sockets s !! ws) as [[]|]; try by apply Hsame.
    rewrite onmessage_dispatch. refine (ex_intro _ _ (conj eq_refl _)). apply Hnone.
    unfold dispatch, onmessage. destruct p as [m|]; [|constructor].
    case_ifs; simpl; try constructor; apply invoke_no_send; intros f Hf; exact Hf.
  - destruct (sockets s !! ws); by apply Hsame.
  - destruct (sockets s !! ws) as [[]|]; try by apply Hsame.
    all: rewrite onclose_effects; refine (ex_intro _ _ (conj eq_refl _));
      apply Hnone, invoke_no_send; intros f Hf; exact Hf.
  - destruct (timeouts s !! id); [|by apply Hsame].
    apply Hsame. by rewrite connect_effects.
  - destruct (intervals s !! id) as [[period ws]|] eqn:Hid; [|by apply Hsame].
    unfold ping. case_bool_decide as Hopen; [|by apply Hsame].
    refine (ex_intro _ _ (conj eq_refl _)). intros ws' frame Hin.
    apply list_elem_of_singleton in Hin. injection Hin as -> ->.
    split_and!; [done|done|]. by exists id, period.
Qed.

(** X7.  In every state the hook can reach, a successful handshake opens
    the socket, sets [isConnected], clears [connectionError], calls
    on-connect when registered, and starts exactly one heartbeat interval of
    [ping_period] for that socket under a fresh identifier, which it keeps
    in [pingIntervalRef]. *)
Theorem handshake_starts_heartbeat env o evs ws :
  let s := run env (init o) evs in
  sockets s !! ws = Some CONNECTING →
  let s' := step env s (WsOpen ws) in
  sockets s' = <[ws := OPEN]> (sockets s)
  ∧ isConnected s' = true
  ∧ connectionError s' = None
  ∧ effects s' = effects s ++ invoke (onConnect (callbacksRef s)) CallConnect
  ∧ intervals s !! nextTimer s = None
  ∧ intervals s' = <[nextTimer s := (ping_period, ws)]> (intervals s)
  ∧ pingIntervalRef s' = Some (nextTimer s).
Proof.
  intros s Hws s'. subst s'. simpl. rewrite Hws. simpl. split_and!; try done.
  destruct (intervals s !! nextTimer s) eqn:Hn; [|done].
  destruct (timers_fresh_run env evs (init o) (timers_fresh_init o)) as [_ Hi].
  specialize (Hi _ _ Hn). by apply Pos.lt_irrefl in Hi.
Qed.

(** X8.  The close event of any socket that is not yet closed clears the
    heartbeat interval held in [pingIntervalRef] and sets [isConnected] to
    false, whichever socket that interval pings, and leaves the other
    sockets as they are. *)
Theorem close_event_stops_registered_heartbeat env s ws r id :
  sockets s !! ws = Some r → r ≠ CLOSED → pingIntervalRef s = Some id →
  let s' := step env s (WsClose ws) in
  intervals s' = delete id (intervals s)
  ∧ isConnected s' = false
  ∧ ∀ ws', ws' ≠ ws → sockets s' !! ws' = sockets s !! ws'.
Proof.
  intros Hws Hr Hid s'. subst s'. simpl. rewrite Hws.
  destruct r; try done; unfold onclose; simpl; rewrite Hid; simpl;
    (split_and!; [done..|]); intros ws' Hne; by rewrite list_lookup_insert_ne.
Qed.

(** X8, an instance: the late close event of a socket closed by
    [disconnect] stops the heartbeat of the socket opened after it. *)
Lemma close_event_stops_registered_heartbeat_witness :
  let s := run Scenario.page (init Scenario.subscriber)
             [Connect; WsOpen 0; Disconnect; Connect; WsOpen 1] in
  let s' := step Scenario.page s (WsClose 0) in
  sockets s = [CLOSING; OPEN] ∧ pingIntervalRef s = Some 2%positive
  ∧ intervals s = {[ 2%positive := (ping_period, 1) ]}
  ∧ intervals s' = delete 2%positive (intervals s)
  ∧ isConnected s' = false
  ∧ sockets s' !! 1 = Some OPEN.
Proof.
  assert (H1 : sockets (run Scenario.page (init Scenario.subscriber)
                 [Connect; WsOpen 0; Disconnect; Connect; WsOpen 1]) !! 0 = Some CLOSING)
    by (vm_compute; reflexivity).
  assert (H2 : pingIntervalRef (run Scenario.page (init Scenario.subscriber)
                 [Connect; WsOpen 0; Disconnect; Connect; WsOpen 1]) = Some 2%positive)
    by (vm_compute; reflexivity).
  destruct (close_event_stops_registered_heartbeat Scenario.page _ 0 CLOSING 2%positive
              H1 ltac:(discriminate) H2) as (Hi & Hc & Hs).
  refine (conj _ (conj H2 (conj _ (conj Hi (conj Hc _))))); [vm_compute; reflexivity..|].
  rewrite (Hs 1) by discriminate. vm_compute. reflexivity.
Defined.

Lemma run_snoc env s evs e : run env s (evs ++ [e]) = step env (run env s evs) e.
Proof. unfold run. by rewrite foldl_app. Qed.

Lemma isConnected_disconnect s : isConnected (disconnect s) = isConnected s.
Proof.
  unfold disconnect. destruct (reconnectTimeoutRef s); simpl;
    destruct (pingIntervalRef s); simpl; destruct (wsRef s); done.
Qed.

Lemma isConnected_step env s e :
  isConnected (step env s e) = true →
  (∃ ws, e = WsOpen ws ∧ sockets s !! ws = Some CONNECTING) ∨ isConnected s = true.
Proof.
  destruct e as [| |o|ws|ws p|ws|ws|id|id]; simpl.
  - unfold connect. case_ifs; simpl; auto.
  - rewrite isConnected_disconnect. auto.
  - auto.
  - destruct (sockets s !! ws) as [[]|] eqn:Hws; eauto.
  - destruct (sockets s !! ws) as [[]|]; auto. rewrite onmessage_dispatch. auto.
  - destruct (sockets s !! ws); auto.
  - destruct (sockets s !! ws) as [[]|]; auto;
      unfold onclose; simpl; by destruct (pingIntervalRef s).
  - destruct (timeouts s !! id); auto. unfold connect. case_ifs; simpl; auto.
  - destruct (intervals s !! id) as [[? ws]|]; auto. unfold ping. case_ifs; auto.
Qed.

Lemma unclosed_step env s e ws :
  unclosed s ws → isConnected (step env s e) = true → unclosed (step env s e) ws.
Proof.
  unfold unclosed. intros Hws. destruct e as [| |o|j|j p|j|j|id|id]; simpl.
  - unfold connect. case_ifs; simpl; auto. intros _.
    destruct Hws as [Hws|Hws]; [left|right]; by apply lookup_app_l_Some.
  - intros _. destruct (disconnect_frame s) as [-> _].
    destruct (wsRef s) as [cur|]; [|done].
    destruct (decide (cur = ws)) as [->|Hne].
    + right. rewrite list_lookup_alter_eq. by destruct Hws as [-> | ->].
    + by rewrite list_lookup_alter_ne.
  - done.
  - destruct (sockets s !! j) as [[]|] eqn:Hj; auto. intros _. simpl.
    destruct (decide (j = ws)) as [->|Hne]; [destruct Hws; congruence|].
    by rewrite list_lookup_insert_ne.
  - destruct (sockets s !! j) as [[]|]; auto. rewrite onmessage_dispatch. auto.
  - destruct (sockets s !! j); auto.
  - destruct (sockets s !! j) as [[]|]; auto;
      unfold onclose; simpl; by destruct (pingIntervalRef s).
  - destruct (timeouts s !! id); auto. unfold connect. case_ifs; simpl; auto. intros _.
    destruct Hws as [Hws|Hws]; [left|right]; by apply lookup_app_l_Some.
  - destruct (intervals s !! id) as [[? j]|]; auto. unfold ping. case_ifs; auto.
Qed.

Lemma handshaken_snoc env s evs e :
  (isConnected (run env s evs) = true → handshaken env s evs) →
  isConnected (run env s (evs ++ [e])) = true → handshaken env s (evs ++ [e]).
Proof.
  intros IH. rewrite run_snoc. intros Hc.
  destruct (isConnected_step _ _ _ Hc) as [(ws & -> & Hws)|Hprev].
  - exists ws. split; [by exists evs, []|].
    left. rewrite run_snoc. simpl. rewrite Hws. simpl.
    apply list_lookup_insert_eq. by eapply lookup_lt_Some.
  - destruct (IH Hprev) as (ws & (pre & post & -> & Hpre) & Hun).
    exists ws. split.
    + exists pre, (post ++ [e]). by rewrite <-app_assoc.
    + rewrite run_snoc. by apply unclosed_step.
Qed.

(** X9.  In every state the hook can reach, [isConnected] is true only if
    some socket has completed its handshake (its open event arrived while
    it was connecting) and has not been reported closed since: it is open,
    or closing after a [close()]. *)
Theorem connected_flag_has_socket env o evs :
  let s := run env (init o) evs in
  isConnected s = true →
  ∃ ws pre post,
    evs = pre ++ WsOpen ws :: post
    ∧ sockets (run env (init o) pre) !! ws = Some CONNECTING
    ∧ (sockets s !! ws = Some OPEN ∨ sockets s !! ws = Some CLOSING).
Proof.
  simpl. intros Hc.
  enough (handshaken env (init o) evs) as (ws & (pre & post & ? & ?) & ?)
    by (by exists ws, pre, post).
  revert Hc. induction evs as [|e evs IH] using rev_ind; [done|].
  by apply handshaken_snoc.
Qed.

(** X9, an instance: right after [disconnect] the flag is still set; the
    socket that opened is closing. *)
Lemma connected_flag_has_socket_witness :
  let evs := [Connect; WsOpen 0; Disconnect] in
  let s := run Scenario.page (init Scenario.subscriber) evs in
  isConnected s = true
  ∧ sockets s = [CLOSING]
  ∧ ∃ ws pre post,
      evs = pre ++ WsOpen ws :: post
      ∧ sockets (run Scenario.page (init Scenario.subscriber) pre) !! ws = Some CONNECTING
      ∧ (sockets s !! ws = Some OPEN ∨ sockets s !! ws = Some CLOSING).
Proof.
  assert (H : isConnected (run Scenario.page (init Scenario.subscriber)
                             [Connect; WsOpen 0; Disconnect]) = true)
    by (vm_compute; reflexivity).
  exact (conj H (conj eq_refl (connected_flag_has_socket Scenario.page Scenario.subscriber
                   [Connect; WsOpen 0; Disconnect] H))).
Defined.

Lemma inert_step env s e :
  url_accepted env (wsUrl env) = false → inert s → inert (step env s e).
Proof.
  intros Hurl (Hs & Ht & Hi & Hw & Hc & He).
  destruct e as [| |o|ws|ws p|ws|ws|id|id]; simpl; rewrite ?Hs, ?Ht, ?Hi, ?lookup_nil, ?lookup_empty;
    try done.
  - unfold connect, current_is. rewrite Hw, Hurl. done.
  - unfold disconnect.
    destruct (reconnectTimeoutRef s); simpl; destruct (pingIntervalRef s); simpl;
      rewrite Hw; unfold inert; simpl; rewrite ?Ht, ?Hi, ?delete_empty; done.
Qed.

(** X10.  When the socket constructor refuses the URL, no run of the hook
    ever creates a socket, schedules a timer or calls a callback, and every
    [connect] reports the failure in [connectionError]. *)
Theorem rejected_url_never_connects env o evs :
  url_accepted env (wsUrl env) = false →
  let s := run env (init o) evs in
  sockets s = [] ∧ timeouts s = ∅ ∧ intervals s = ∅
  ∧ isConnected s = false ∧ effects s = []
  ∧ connectionError (step env s Connect) = Some "Failed to connect to WebSocket".
Proof.
  intros Hurl s.
  assert (inert s) as (Hs & Ht & Hi & Hw & Hc & He).
  { subst s. generalize (init o) (conj eq_refl (conj eq_refl (conj eq_refl (conj eq_refl
      (conj eq_refl eq_refl)))) : inert (init o)).
    induction evs as [|e evs IH]; intros s0 H0; [done|].
    simpl. apply IH. by apply inert_step. }
  split_and!; try done.
  simpl. unfold connect, current_is. by rewrite Hw, Hurl.
Qed.

(** X10, an instance. *)
Lemma rejected_url_never_connects_witness :
  let s := run Scenario.broken_page (init Scenario.subscriber)
             [Connect; WsOpen 0; Connect; TimeoutFire 1; Disconnect; Connect] in
  url_accepted Scenario.broken_page (wsUrl Scenario.broken_page) = false
  ∧ sockets s = [] ∧ timeouts s = ∅ ∧ effects s = [].
Proof.
  destruct (rejected_url_never_connects Scenario.broken_page Scenario.subscriber
              [Connect; WsOpen 0; Connect; TimeoutFire 1; Disconnect; Connect] eq_refl)
    as (Hs & Ht & _ & _ & He & _).
  exact (conj eq_refl (conj Hs (conj Ht He))).
Defined.

(** X11.  When the current socket is reported closed and the timer that
    close event scheduled fires, a new connecting socket is created and
    becomes the current one (the constructor accepting the URL). *)
Theorem unexpected_close_then_timer_reconnects env s ws r :
  url_accepted env (wsUrl env) = true →
  wsRef s = Some ws → sockets s !! ws = Some r → r ≠ CLOSED →
  let closed := step env s (WsClose ws) in
  let s' := step env closed (TimeoutFire (nextTimer s)) in
  timeouts closed !! nextTimer s = Some reconnect_delay
  ∧ sockets s' = <[ws := CLOSED]> (sockets s) ++ [CONNECTING]
  ∧ wsRef s' = Some (length (sockets s))
  ∧ timeouts s' = delete (nextTimer s) (timeouts closed).
Proof.
  intros Hurl Hw Hws Hr closed s'.
  assert (closed = onclose (set_sockets (<[ws := CLOSED]> (sockets s)) s)) as Hclosed.
  { subst closed. simpl. rewrite Hws. by destruct r. }
  destruct (onclose_schedules_reconnect (set_sockets (<[ws := CLOSED]> (sockets s)) s))
    as (Ht & _ & _). rewrite <-Hclosed in Ht. simpl in Ht.
  destruct (onclose_frame (set_sockets (<[ws := CLOSED]> (sockets s)) s)) as [Hs Hwr].
  rewrite <-Hclosed in Hs, Hwr. simpl in Hs, Hwr.
  assert (timeouts closed !! nextTimer s = Some reconnect_delay) as Hpending
    by (rewrite Ht; apply lookup_insert_eq).
  split; [done|].
  subst s'. simpl. rewrite Hpending. unfold connect.
  assert (current_is OPEN (clearTimeout (nextTimer s) closed) = false) as ->.
  { unfold current_is. simpl. rewrite Hwr, Hw, Hs.
    rewrite list_lookup_insert_eq by (by eapply lookup_lt_Some).
    by apply bool_decide_eq_false. }
  rewrite Hurl. simpl. rewrite Hs, length_insert. done.
Qed.

(** X11, an instance. *)
Lemma unexpected_close_then_timer_reconnects_witness :
  let s := run Scenario.page (init Scenario.subscriber) [Connect; WsOpen 0] in
  let s' := run Scenario.page s [WsClose 0; TimeoutFire 2] in
  wsRef s = Some 0 ∧ sockets s !! 0 = Some OPEN
  ∧ sockets s' = [CLOSED; CONNECTING] ∧ wsRef s' = Some 1.
Proof.
  destruct (unexpected_close_then_timer_reconnects Scenario.page
              (run Scenario.page (init Scenario.subscriber) [Connect; WsOpen 0]) 0 OPEN
              eq_refl eq_refl eq_refl ltac:(discriminate)) as (_ & Hs & Hw & _).
  exact (conj eq_refl (conj eq_refl (conj Hs Hw))).
Defined.

(** X7, an instance: the first handshake after mount. *)
Lemma handshake_starts_heartbeat_witness :
  let s := run Scenario.page (init Scenario.subscriber) [Connect] in
  let s' := step Scenario.page s (WsOpen 0) in
  sockets s !! 0 = Some CONNECTING
  ∧ sockets s' = [OPEN] ∧ isConnected s' = true
  ∧ effects s' = [CallConnect 3]
  ∧ intervals s' = {[ 1%positive := (25000%N, 0) ]}.
Proof.
  destruct (handshake_starts_heartbeat Scenario.page Scenario.subscriber [Connect] 0 eq_refl)
    as (Hs & Hc & _ & He & _ & Hi & _).
  exact (conj eq_refl (conj Hs (conj Hc (conj He Hi)))).
Defined.
End HookBehaviour.

Section LegacyBehaviour.
Import LegacyHook.

(** X12.  In the older copy of the hook every render with a new option bag
    closes the socket [wsRef] holds and creates a new connecting socket
    bound to the new bag (the constructor accepting the URL). *)
Theorem legacy_options_change_always_reopens env s o :
  url_accepted env (wsUrl env) = true →
  let s' := step env s (OptionsChange o) in
  sockets s'
  = match wsRef s with
    | Some ws => alter (prod_map close_socket id) ws (sockets s)
    | None => sockets s
    end ++ [(CONNECTING, o)]
  ∧ wsRef s' = Some (length (sockets s))
  ∧ options s' = o.
Proof.
  intros Hurl. simpl. unfold connect, disconnect, current_is. simpl.
  destruct (reconnectTimeoutRef s); simpl; destruct (pingIntervalRef s); simpl;
    destruct (wsRef s) eqn:Hw; simpl; rewrite ?Hw; simpl; rewrite Hurl; simpl;
    rewrite ?length_alter; done.
Qed.

(** X12, an instance: two renders, two reconnections. *)
Lemma legacy_options_change_always_reopens_witness :
  let s := run Scenario.page (init Scenario.subscriber)
             [Connect; WsOpen 0; OptionsChange Scenario.next_subscriber; WsOpen 1] in
  let s' := step Scenario.page s (OptionsChange Scenario.subscriber) in
  url_accepted Scenario.page (wsUrl Scenario.page) = true
  ∧ sockets s' = [(CLOSING, Scenario.subscriber); (CLOSING, Scenario.next_subscriber);
                  (CONNECTING, Scenario.subscriber)]
  ∧ wsRef s' = Some 2.
Proof.
  destruct (legacy_options_change_always_reopens Scenario.page
              (run Scenario.page (init Scenario.subscriber)
                 [Connect; WsOpen 0; OptionsChange Scenario.next_subscriber; WsOpen 1])
              Scenario.subscriber eq_refl) as (Hs & Hw & _).
  exact (conj eq_refl (conj Hs Hw)).
Defined.
End LegacyBehaviour.

(* ===================================================================== *)
(** ** More about the page *)
(* ===================================================================== *)

Section PageBehaviour.
Import Dashboard.

Lemma tab_key_inj t t' : tab_key t = tab_key t' → t = t'.
Proof. by destruct t, t'. Qed.

(** X13.  The profile store: an update is read back for the active view,
    leaves the profile of every other view as it was, and on a fresh page
    every view has the default profile. *)
Theorem settings_update_scoped new t d :
  activeSettings (handleSettingsUpdate new d) = new
  ∧ (t ≠ activeTab d →
     activeSettings (setActiveTab t (handleSettingsUpdate new d))
     = activeSettings (setActiveTab t d))
  ∧ activeSettings (setActiveTab t initial) = defaultSettings.
Proof.
  split_and!.
  - unfold activeSettings, handleSettingsUpdate. simpl. by rewrite lookup_insert_eq.
  - intros Hne. unfold activeSettings, handleSettingsUpdate. simpl.
    rewrite lookup_insert_ne; [done|]. intros H%tab_key_inj. by apply Hne.
  - by destruct t.
Qed.

(** X14.  A record that carries none of the numeric fields passes every
    numeric threshold of every profile, view and strategy: it is hidden only
    as a watch-level record when watch records are off. *)
Theorem missing_fields_pass tab hs st i lvl :
  visible tab hs st (mkSignal i None lvl None None None None None None)
  = negb (negb (showWatchLevel st) && bool_decide (lvl = Some "watch")).
Proof.
  unfold visible, gt, lt. simpl.
  destruct (minScore st), (minVolumeUsd st), (minLiquidity st), (minWhaleCount st),
    (num_or (minUniqueWhales st) 0), (maxSpread st), (maxTimeHours st); simpl;
    rewrite ?andb_false_r; simpl; by case_ifs.
Qed.

Lemma lt_raised x a b : raised a b → lt x a = true → lt x b = true.
Proof.
  intros [->|(p & q & -> & -> & Hle)]; [done|].
  unfold lt. destruct x as [x|]; [|done].
  rewrite !bool_decide_eq_true. intros Hlt. by eapply Qclt_le_trans.
Qed.

Lemma num_or_raised a b : raised a b → raised (num_or a 0) (num_or b 0).
Proof.
  intros [->|(p & q & -> & -> & Hle)]; [by left|].
  right. unfold num_or. do 2 case_bool_decide; subst; eauto.
Qed.

(** X15.  Raising the minimum score, volume, liquidity, whale count or
    unique-whale count of a profile never reveals a record: what is visible
    under the stricter profile is visible under the looser one. *)
Theorem tighter_profile_shows_less tab hs loose strict signal :
  tightens loose strict →
  visible tab hs strict signal = true → visible tab hs loose signal = true.
Proof.
  intros (Hsc & Hvol & Hliq & Hwc & Huw & Hsp & Hti & Hw) Hvis.
  apply num_or_raised in Huw.
  unfold visible in *. rewrite Hsp, Hti, Hw.
  destruct (lt (score signal) (minScore loose)) eqn:H1;
    [apply (lt_raised _ _ _ Hsc) in H1; by rewrite H1 in Hvis|].
  destruct (lt (volume_24h signal) (minVolumeUsd loose)) eqn:H2;
    [apply (lt_raised _ _ _ Hvol) in H2; rewrite H2 in Hvis; revert Hvis; by case_ifs|].
  destruct (lt (liquidity signal) (minLiquidity loose)) eqn:H3;
    [apply (lt_raised _ _ _ Hliq) in H3; rewrite H3 in Hvis; revert Hvis; by case_ifs|].
  destruct (lt (whale_count signal) (minWhaleCount loose)) eqn:H4;
    [apply (lt_raised _ _ _ Hwc) in H4; rewrite H4 in Hvis|].
  { revert Hvis. simpl. by case_ifs. }
  destruct (lt (unique_whale_count signal) (num_or (minUniqueWhales loose) 0)) eqn:H5;
    [apply (lt_raised _ _ _ Huw) in H5; rewrite H5 in Hvis|].
  { revert Hvis. rewrite !orb_true_r. by case_ifs. }
  revert Hvis. simpl. rewrite !andb_false_r. by case_ifs.
Qed.

(** X15, an instance. *)
Lemma tighter_profile_shows_less_witness :
  let loose := defaultSettings in
  let strict := mkSettings (Some (Qc_of_Z 2)) zero (Some (Qc_of_Z 1000)) zero
                  (Some (Q2Qc (1 # 10))) zero zero (Some (Qc_of_Z 5)) true in
  tightens loose strict
  ∧ visible scanner (hotSettings initial) strict Scenario.fresh = true
  ∧ visible scanner (hotSettings initial) loose Scenario.fresh = true.
Proof.
  assert (H : tightens defaultSettings
                (mkSettings (Some (Qc_of_Z 2)) zero (Some (Qc_of_Z 1000)) zero
                   (Some (Q2Qc (1 # 10))) zero zero (Some (Qc_of_Z 5)) true)).
  { unfold tightens, raised. simpl.
    split_and!; try done; try (by left); right; eexists _, _; (split_and!; [done..|]);
      by compute. }
  refine (conj H (conj eq_refl _)).
  exact (tighter_profile_shows_less scanner (hotSettings initial) _ _ Scenario.fresh H eq_refl).
Defined.

(** X16.  On the hot view the whale-count thresholds play no part unless
    the strategy is [whale], and under the [scalp] strategy the maximum
    spread plays no part either. *)
Theorem strategy_exemptions hs w u w' u' v l sp sp' t n sc sh signal :
  (strategy hs ≠ "whale" →
   visible hot hs (mkSettings w u v l sp t n sc sh) signal
   = visible hot hs (mkSettings w' u' v l sp t n sc sh) signal)
  ∧ (strategy hs = "scalp" →
     visible hot hs (mkSettings w u v l sp t n sc sh) signal
     = visible hot hs (mkSettings w' u' v l sp' t n sc sh) signal).
Proof.
  split.
  - intros Hne. unfold visible. simpl.
    destruct (String.eqb (strategy hs) "whale") eqn:Heq; [by apply String.eqb_eq in Heq|].
    done.
  - intros Heq. unfold visible. simpl. rewrite Heq. done.
Qed.

(** X17.  A maximum spread that is not positive switches the spread filter
    off: the spread of a record no longer affects its visibility.  The same
    holds for the time horizon and the hours a record has left. *)
Theorem zero_maximum_disables_filter tab hs st i sc lvl wc uwc vol liq sp sp' hr hr' :
  (gt (maxSpread st) zero = false →
   visible tab hs st (mkSignal i sc lvl wc uwc vol liq sp hr)
   = visible tab hs st (mkSignal i sc lvl wc uwc vol liq sp' hr))
  ∧ (gt (maxTimeHours st) zero = false →
     visible tab hs st (mkSignal i sc lvl wc uwc vol liq sp hr)
     = visible tab hs st (mkSignal i sc lvl wc uwc vol liq sp hr')).
Proof.
  split; intros H; unfold visible;
    cbn [score level whale_count unique_whale_count volume_24h liquidity spread
         hours_remaining];
    rewrite H; cbn [andb]; by rewrite ?andb_false_r.
Qed.

(** X18.  Turning watch records off removes exactly the records of level
    [watch] from what was visible with them on. *)
Theorem watch_toggle_hides_only_watch tab hs w u v l sp t n sc (records : list Signal) :
  filter (λ s, visible tab hs (mkSettings w u v l sp t n sc false) s = true) records
  = filter (λ s, level s ≠ Some "watch")
      (filter (λ s, visible tab hs (mkSettings w u v l sp t n sc true) s = true) records).
Proof.
  induction records as [|s records IH]; [done|].
  rewrite !filter_cons, IH.
  assert (visible tab hs (mkSettings w u v l sp t n sc false) s
          = visible tab hs (mkSettings w u v l sp t n sc true) s
            && negb (bool_decide (level s = Some "watch"))) as Hv.
  { unfold visible. simpl. by case_ifs. }
  destruct (decide (visible tab hs (mkSettings w u v l sp t n sc true) s = true)) as [Hon|Hoff].
  - rewrite filter_cons. rewrite Hon in Hv. simpl in Hv.
    destruct (decide (level s ≠ Some "watch")) as [Hl|Hl].
    + rewrite bool_decide_eq_false_2 in Hv by done. by rewrite decide_True.
    + apply dec_stable in Hl. rewrite bool_decide_eq_true_2 in Hv by done.
      rewrite decide_False; [done|]. by rewrite Hv.
  - apply not_true_is_false in Hoff. rewrite Hoff in Hv. simpl in Hv.
    rewrite decide_False; [done|]. by rewrite Hv.
Qed.

(** X20.  However a pull ends, the loading flag is off afterwards. *)
Theorem pull_always_ends_loading tab hs now r d :
  isLoading (fetchSignals_settle tab hs now r d) = false.
Proof.
  unfold fetchSignals_settle, fetchSignals_catch.
  destruct r as [e|status [e|data]]; case_ifs; simpl; try done;
    repeat case_match; done.
Qed.



(** X19.  After a failed signals pull, a push that is accepted and carries
    no error of its own refreshes the records and leaves the error of the
    pull on display. *)
Theorem stale_error_survives_push tab hs now now' r l cached age d :
  is_arbitrage tab hs = false → failed r = true →
  activeTab d = scanner → isLive d = true → l ≠ [] →
  let failed_pull := fetchSignals_settle tab hs now r d in
  let pushed := onSignalsUpdate now' l cached age None failed_pull in
  signals pushed = l ∧ lastUpdate pushed = Some now'
  ∧ error pushed = error failed_pull ∧ ∃ m, error pushed = Some m.
Proof.
  intros Harb Hf Htab Hlive Hl failed_pull pushed.
  assert (activeTab failed_pull = scanner ∧ isLive failed_pull = true) as [Ht' Hl'].
  { subst failed_pull. rewrite <-Htab, <-Hlive. unfold fetchSignals_settle, fetchSignals_catch.
    rewrite Harb. destruct r as [e|status body]; simpl in Hf; [by case_ifs|].
    apply negb_true_iff in Hf. rewrite Hf. simpl. by case_ifs. }
  assert (∃ m, error failed_pull = Some m) as Herr.
  { subst failed_pull. unfold fetchSignals_settle. rewrite Harb.
    destruct r as [e|status body]; simpl in Hf; [apply fetchSignals_catch_frame|].
    apply negb_true_iff in Hf. rewrite Hf. simpl.
    destruct (status =? 404)%N; apply fetchSignals_catch_frame. }
  subst pushed. unfold onSignalsUpdate. rewrite Ht', Hl'. simpl.
  destruct l; [done|]. simpl. done.
Qed.










(** X23.  A whale-trade pull changes nothing but the buffer; a rejected
    request, a reply outside 200..299, an unreadable body and a body without
    [trades] change nothing at all (no error is shown); otherwise the buffer
    becomes the list of the body, whatever its length. *)
Theorem whale_pull_silent r d :
  let d' := fetchWhaleTrades r d in
  d' = setWhaleTrades (whaleTrades d') d
  ∧ (match r with
     | Replied status (inr data) =>
       if ok status then
         match body_trades data with
         | Some trades => whaleTrades d' = trades
         | None => d' = d
         end
       else d' = d
     | _ => d' = d
     end).
Proof.
  unfold fetchWhaleTrades. destruct r as [e|status [e|data]]; try (by destruct d).
  destruct (ok status); [|by destruct d].
  destruct (body_trades data); by destruct d.
Qed.

(** X24.  The two sources of the page.  With live mode off there is no
    polling and a push changes nothing.  With live mode on, any view but the
    scanner polls and ignores pushes; the scanner view polls exactly while
    the channel is not connected and applies every non-empty push. *)
Theorem live_sources connected now l cached age err d :
  (isLive d = false →
   polling connected d = false ∧ onSignalsUpdate now l cached age err d = d)
  ∧ (isLive d = true → activeTab d ≠ scanner →
     polling connected d = true ∧ onSignalsUpdate now l cached age err d = d)
  ∧ (isLive d = true → activeTab d = scanner →
     polling connected d = negb connected
     ∧ (l ≠ [] → signals (onSignalsUpdate now l cached age err d) = l)).
Proof.
  unfold polling, onSignalsUpdate. split_and!.
  - intros ->. rewrite !andb_false_r. simpl. by case_ifs.
  - intros -> Hne. rewrite (bool_decide_eq_false_2 _ Hne). done.
  - intros -> ->. simpl. split; [by destruct connected|].
    intros Hl. destruct l; [done|]. simpl. by case_ifs.
Qed.

(** X19, an instance. *)
Lemma stale_error_survives_push_witness :
  let d := setSignals [Scenario.stale] initial in
  let failed_pull := fetchSignals 1700000000000 (Replied 503 (inl ThrownOther)) d in
  let pushed := onSignalsUpdate 1700000005000 [Scenario.fresh] false None None failed_pull in
  failed (Replied 503 (inl ThrownOther)) = true ∧ activeTab d = scanner ∧ isLive d = true
  ∧ signals pushed = [Scenario.fresh] ∧ error pushed = Some "HTTP 503".
Proof.
  destruct (stale_error_survives_push scanner (hotSettings initial) 1700000000000
              1700000005000 (Replied 503 (inl ThrownOther)) [Scenario.fresh] false None
              (fetchSignals_begin (setSignals [Scenario.stale] initial))
              eq_refl eq_refl eq_refl eq_refl ltac:(discriminate)) as (Hs & _ & He & _).
  refine (conj eq_refl (conj eq_refl (conj eq_refl (conj Hs (eq_trans He _))))).
  vm_compute. reflexivity.
Defined.
(** X27.  The arbitrage pull of the hot view never touches the signal set
    or the time of the last update, whatever the reply; a 2xx body with an
    [opportunities] array replaces the displayed opportunities and shows no
    error of its own. *)
Theorem arbitrage_pull_keeps_signals hs now r d :
  strategy hs = "arbitrage" →
  let d' := fetchSignals_settle hot hs now r d in
  signals d' = signals d ∧ lastUpdate d' = lastUpdate d
  ∧ (∀ status data opps,
       r = Replied status (inr data) → ok status = true →
       body_opportunities data = Some opps →
       arbitrageOpps d' = opps ∧ error d' = error d).
Proof.
  intros Hs. unfold fetchSignals_settle, is_arbitrage. rewrite Hs. simpl.
  split_and!.
  - destruct r as [e|status [e|data]]; try apply fetchSignals_catch_frame.
    + destruct (ok status); [apply fetchSignals_catch_frame|done].
    + destruct (ok status); [|done]. by destruct (body_opportunities data).
  - destruct r as [e|status [e|data]]; try apply fetchSignals_catch_frame.
    + destruct (ok status); [apply fetchSignals_catch_frame|done].
    + destruct (ok status); [|done]. by destruct (body_opportunities data).
  - intros status data opps -> Hok Hopps. by rewrite Hok, Hopps.
Qed.

(** X27, an instance. *)
Lemma arbitrage_pull_keeps_signals_witness :
  let hs := mkHot EmptyString EmptyString "arbitrage" in
  let d := setHotSettings hs (setActiveTab hot (setSignals [Scenario.stale] initial)) in
  let body := mkBody None (Some [Scenario.fresh]) (Some [Js.Str "e1"]) None in
  let d' := fetchSignals 1700000000000 (Replied 200 (inr body)) d in
  strategy hs = "arbitrage"
  ∧ signals d' = [Scenario.stale] ∧ arbitrageOpps d' = [Js.Str "e1"].
Proof.
  destruct (arbitrage_pull_keeps_signals (mkHot EmptyString EmptyString "arbitrage")
              1700000000000
              (Replied 200 (inr (mkBody None (Some [Scenario.fresh]) (Some [Js.Str "e1"]) None)))
              (fetchSignals_begin
                 (setHotSettings (mkHot EmptyString EmptyString "arbitrage")
                    (setActiveTab hot (setSignals [Scenario.stale] initial))))
              eq_refl) as (Hs & _ & Ho).
  destruct (Ho _ _ _ eq_refl eq_refl eq_refl) as (Ha & _).
  exact (conj eq_refl (conj Hs Ha)).
Defined.
End PageBehaviour.

Section TimeAgo.
Import Formatting.
#[local] Open Scope Z_scope.

Lemma round_half_even_bounds n d :
  0 < d →
  n `div` d ≤ Double.round_half_even n d ≤ n `div` d + 1
  ∧ (2 * (n `mod` d) < d → Double.round_half_even n d = n `div` d).
Proof.
  intros Hd. unfold Double.round_half_even.
  destruct (Z.ltb_spec (2 * (n `mod` d)) d); [lia|].
  destruct (Z.ltb_spec d (2 * (n `mod` d))); [lia|].
  destruct (Z.even (n `div` d)); lia.
Qed.

Lemma round_half_even_nonpos n d : n ≤ 0 → 0 < d → Double.round_half_even n d ≤ 0.
Proof.
  intros Hn Hd. destruct (round_half_even_bounds n d Hd) as [[_ Hup] Hlow].
  destruct (decide (n = 0)) as [->|Hne].
  - rewrite Hlow; rewrite ?Z.mod_0_l, ?Z.div_0_l; lia.
  - assert (n `div` d < 0) by (apply Z.div_lt_upper_bound; lia). lia.
Qed.

Lemma floor_nearest_nonpos n d : n ≤ 0 → 0 < d → Double.floor (Double.nearest n d) ≤ 0.
Proof.
  intros Hn Hd. unfold Double.nearest, Double.floor.
  destruct (Z.eqb_spec n 0); [done|]. cbn [fst snd].
  match goal with |- Z.shiftl ?m ?e ≤ 0 =>
    assert (m ≤ 0) as Hm; [|destruct (decide (m = 0)) as [->|];
      [by rewrite Z.shiftl_0_l|pose proof (Z.shiftl_nonneg m e); lia]] end.
  apply round_half_even_nonpos.
  - assert (0 < 2 ^ Z.max 0 (- (Double.ilog2 (Z.abs n) d - 52))) by (apply Z.pow_pos_nonneg; lia).
    nia.
  - assert (0 < 2 ^ Z.max 0 (Double.ilog2 (Z.abs n) d - 52)) by (apply Z.pow_pos_nonneg; lia).
    nia.
Qed.

Lemma ilog2_below n d k :
  0 < n → 0 < d → 0 < k → n < 2 ^ k * d → Double.ilog2 n d < k.
Proof.
  intros Hn Hd Hk Hlt. unfold Double.ilog2. destruct (Z.leb_spec d n).
  - apply Z.log2_lt_pow2.
    + apply Z.div_str_pos. lia.
    + apply Z.div_lt_upper_bound; lia.
  - pose proof (Z.log2_up_nonneg ((d + n - 1) `div` n)). lia.
Qed.

(** The difference of two integers within 2^53 of each other is exact. *)
Lemma sub_exact a b : Z.abs (a - b) < 2 ^ 53 → Double.sub a b = a - b.
Proof.
  intros Hlt. unfold Double.sub, Double.nearest, Double.floor.
  destruct (Z.eqb_spec (a - b) 0) as [->|Hne]; [done|]. cbn [fst snd].
  set (z := a - b) in *.
  assert (Double.ilog2 (Z.abs z) 1 < 53) as He by (apply ilog2_below; lia).
  set (e := Double.ilog2 (Z.abs z) 1 - 52) in *.
  rewrite (Z.max_r 0 (- e)), (Z.max_l 0 e) by lia.
  rewrite Z.pow_0_r, Z.mul_1_r.
  destruct (round_half_even_bounds (z * 2 ^ (- e)) 1 ltac:(lia)) as [_ ->];
    [|rewrite Z.mod_1_r; lia].
  rewrite Z.div_1_r, Z.shiftl_div_pow2 by lia.
  apply Z.div_mul. apply Z.pow_nonzero; lia.
Qed.

(** [Math.floor(a / b)] is the integer quotient when the divisor is below
    2^16 and the quotient below 2^38: the quotient then carries at least 15
    binary places, which the remainder cannot round away. *)
Lemma floor_div_exact a b :
  0 ≤ a → 0 < b < 2 ^ 16 → a < 2 ^ 38 * b →
  Double.floor_div a b = a `div` b.
Proof.
  intros Ha Hb Hlt. unfold Double.floor_div, Double.nearest, Double.floor.
  destruct (Z.eqb_spec a 0) as [->|Hne]; [by rewrite Z.div_0_l by lia|]. cbn [fst snd].
  rewrite Z.abs_eq by done.
  assert (Double.ilog2 a b < 38) as He by (apply ilog2_below; lia).
  set (e := Double.ilog2 a b - 52) in *.
  rewrite (Z.max_r 0 (- e)), (Z.max_l 0 e) by lia.
  rewrite Z.pow_0_r, Z.mul_1_r, Z.shiftl_div_pow2 by lia.
  set (P := 2 ^ (- e)).
  assert (2 ^ 15 ≤ P) as HP by (apply Z.pow_le_mono_r; lia).
  set (k := a `div` b). set (r := a `mod` b).
  assert (a = b * k + r) as Hdm by (apply Z.div_mod; lia).
  assert (0 ≤ r < b) as Hr by (apply Z.mod_pos_bound; lia).
  assert (a * P = (k * P) * b + r * P) as HaP by (rewrite Hdm; ring).
  set (q' := (r * P) `div` b). set (r' := (r * P) `mod` b).
  assert (r * P = b * q' + r') as Hdm' by (apply Z.div_mod; lia).
  assert (0 ≤ r' < b) as Hr' by (apply Z.mod_pos_bound; lia).
  assert (0 ≤ q') as Hq0 by (apply Z.div_pos; nia).
  assert (q' < P) as HqP by (apply Z.div_lt_upper_bound; nia).
  assert ((a * P) `div` b = k * P + q') as Hdiv
    by (rewrite HaP, Z.div_add_l by lia; done).
  assert ((a * P) `mod` b = r') as Hmod
    by (rewrite HaP, Z.add_comm, Z.mod_add by lia; done).
  destruct (round_half_even_bounds (a * P) b ltac:(lia)) as [[Hlo Hhi] Hex].
  rewrite Hdiv, Hmod in *.
  assert (Double.round_half_even (a * P) b < (k + 1) * P) as Hup.
  { destruct (decide (q' = P - 1)) as [Hq|Hq]; [|lia].
    rewrite Hex; [lia|].
    assert (r' = b - (b - r) * P) by (subst q'; lia).
    assert (1 * P ≤ (b - r) * P) by (apply Z.mul_le_mono_nonneg_r; lia).
    change (2 ^ 15) with 32768 in HP. change (2 ^ 16) with 65536 in Hb. lia. }
  symmetry. apply (Z.div_unique_pos _ _ _ (Double.round_half_even (a * P) b - k * P)); lia.
Qed.

(** X25.  [formatTimeAgo] on a timestamp that parses, when the timestamp
    lies less than 2^53 ms (some 285,000 years) before the clock reading:
    an age under one minute, a future timestamp included, reads [Just now];
    otherwise the age is shown in whole minutes from 1 to 59, in whole hours
    from 1 to 23, or in whole days, always rounded down.  Within this bound
    no operation of the function rounds. *)
Theorem formatTimeAgo_buckets now t :
  time_value now → time_value t →
  let age := now - t in
  age < 2 ^ 53 →
  (age < 60000 → formatTimeAgo now (Some t) = "Just now")
  ∧ (60000 ≤ age < 3600000 →
     ∃ m, 1 ≤ m < 60 ∧ m * 60000 ≤ age < (m + 1) * 60000
          ∧ formatTimeAgo now (Some t) = pretty m +:+ "m ago")
  ∧ (3600000 ≤ age < 86400000 →
     ∃ h, 1 ≤ h < 24 ∧ h * 3600000 ≤ age < (h + 1) * 3600000
          ∧ formatTimeAgo now (Some t) = pretty h +:+ "h ago")
  ∧ (86400000 ≤ age →
     ∃ d, 1 ≤ d ∧ d * 86400000 ≤ age < (d + 1) * 86400000
          ∧ formatTimeAgo now (Some t) = pretty d +:+ "d ago").
Proof.
  intros _ _ age Hbound. unfold formatTimeAgo.
  change (2 ^ 53) with 9007199254740992 in Hbound.
  destruct (Z.lt_ge_cases age 0) as [Hneg|Hpos].
  { assert (Double.floor_div (Double.sub now t) 60000 ≤ 0) as Hm.
    { apply floor_nearest_nonpos; [|done]. apply floor_nearest_nonpos; fold age; lia. }
    destruct (Z.ltb_spec (Double.floor_div (Double.sub now t) 60000) 1); [|lia].
    split_and!; intros; [done|lia..]. }
  rewrite sub_exact by (fold age; change (2 ^ 53) with 9007199254740992; lia). fold age.
  rewrite (floor_div_exact age 60000)
    by (change (2 ^ 16) with 65536; change (2 ^ 38) with 274877906944; lia).
  set (m := age `div` 60000).
  assert (m * 60000 ≤ age < (m + 1) * 60000) as Hm.
  { subst m. pose proof (Z.div_mod age 60000 ltac:(lia)).
    pose proof (Z.mod_pos_bound age 60000 ltac:(lia)). lia. }
  rewrite (floor_div_exact m 60)
    by (change (2 ^ 16) with 65536; change (2 ^ 38) with 274877906944; lia).
  set (h := m `div` 60).
  assert (h * 60 ≤ m < (h + 1) * 60) as Hh.
  { subst h. pose proof (Z.div_mod m 60 ltac:(lia)).
    pose proof (Z.mod_pos_bound m 60 ltac:(lia)). lia. }
  rewrite (floor_div_exact h 24)
    by (change (2 ^ 16) with 65536; change (2 ^ 38) with 274877906944; lia).
  set (dd := h `div` 24).
  assert (dd * 24 ≤ h < (dd + 1) * 24) as Hd.
  { subst dd. pose proof (Z.div_mod h 24 ltac:(lia)).
    pose proof (Z.mod_pos_bound h 24 ltac:(lia)). lia. }
  split_and!; intros Hage.
  - destruct (Z.ltb_spec m 1); [done|lia].
  - destruct (Z.ltb_spec m 1); [lia|]. destruct (Z.ltb_spec m 60); [|lia].
    exists m. split_and!; [lia..|done].
  - destruct (Z.ltb_spec m 1); [lia|]. destruct (Z.ltb_spec m 60); [lia|].
    destruct (Z.ltb_spec h 24); [|lia]. exists h. split_and!; [lia..|done].
  - destruct (Z.ltb_spec m 1); [lia|]. destruct (Z.ltb_spec m 60); [lia|].
    destruct (Z.ltb_spec h 24); [lia|]. exists dd. split_and!; [lia..|done].
Qed.

(** X25, an instance: a timestamp 10,000,000 ms old. *)
Lemma formatTimeAgo_buckets_witness :
  time_value 1700000000000 ∧ time_value 1699990000000
  ∧ 1700000000000 - 1699990000000 < 2 ^ 53
  ∧ formatTimeAgo 1700000000000 (Some 1699990000000) = "2h ago".
Proof.
  assert (H1 : time_value 1700000000000) by (unfold time_value; lia).
  assert (H2 : time_value 1699990000000) by (unfold time_value; lia).
  assert (H3 : 1700000000000 - 1699990000000 < 2 ^ 53) by reflexivity.
  refine (conj H1 (conj H2 (conj H3 _))).
  destruct (formatTimeAgo_buckets 1700000000000 1699990000000 H1 H2 H3)
    as (_ & _ & Hh & _).
  destruct (Hh ltac:(lia)) as (h & Hb & Hage & ->).
  assert (h = 2) as -> by lia. reflexivity.
Defined.

(** Beyond the bound the subtraction rounds: between the two ends of the
    range of time values the exact age, 17279999999999999 ms, is one
    millisecond short of 200,000,000 days, and the function shows the full
    number, as the code does. *)
Lemma formatTimeAgo_rounds_long_age :
  time_value 8640000000000000 ∧ time_value (-8639999999999999)
  ∧ (8640000000000000 - -8639999999999999) `div` 86400000 = 199999999
  ∧ formatTimeAgo 8640000000000000 (Some (-8639999999999999)) = "200000000d ago".
Proof. split_and!; [unfold time_value; lia..|done|vm_compute; reflexivity]. Qed.
End TimeAgo.

Section EdgePanel.
Import MonteCarloPanel.

(** X26.  However the request of the panel ends, loading is off afterwards
    and the edge threshold is untouched.  A 2xx reply with a body that is
    not [null] stores what the body has under [opportunities], [total] and
    [crypto_markets_analyzed] and leaves no error; every other outcome shows
    the one failure message and keeps the list and the statistics. *)
Theorem edge_pull_outcomes r s :
  let s' := fetchEdgeOpportunities r s in
  let kept :=
    error s' = Some load_failed ∧ opportunities s' = opportunities s
    ∧ stats_total s' = stats_total s ∧ stats_analyzed s' = stats_analyzed s in
  loading s' = false ∧ minEdge s' = minEdge s
  ∧ match r with
    | Replied status (Some data) =>
      if Dashboard.ok status && negb (Js.nullish data) then
        error s' = None ∧ opportunities s' = Js.get data "opportunities"
        ∧ stats_total s' = Js.get data "total"
        ∧ stats_analyzed s' = Js.get data "crypto_markets_analyzed"
      else kept
    | _ => kept
    end.
Proof.
  unfold fetchEdgeOpportunities, fetchEdgeOpportunities_settle, fetchEdgeOpportunities_try,
    fetchEdgeOpportunities_begin.
  destruct r as [|status [data|]]; simpl; try done.
  - destruct (Dashboard.ok status); simpl; [|done]. by destruct (Js.nullish data).
  - by destruct (Dashboard.ok status).
Qed.
End EdgePanel.
